(** * ggRMCP: a gRPC-to-MCP gateway

    A shallow embedding of the parts of the gateway that its specification
    makes claims about: tool naming ([types/service.go]), the header filter
    ([headers/filter.go]), the schema projector and tool builder
    ([tools/builder.go]), the discovery orchestrator ([grpc/discovery.go]),
    the invocation engine ([grpc/reflection.go]), the session rate limiter
    ([session/manager.go]) and the [tools/call] dispatcher
    ([server/handler.go]).

    Go strings are byte strings ([string]); Go maps are [gmap]s; the
    [visited] map of the projector is a [gset] threaded through the calls. *)

From Stdlib Require Import ZArith String Ascii List Lia DecimalString.
From stdpp Require Import gmap strings list fin_maps relations.

Local Open Scope Z_scope.

(** ** Go's [strings] package, as far as the gateway uses it *)

(** [strings.ToLower] lowers ASCII-only strings byte by byte; a string with a
    byte [>= utf8.RuneSelf] goes through [Map(unicode.ToLower, s)], which
    needs the Unicode case tables.  Those tables are a parameter of the
    development. *)
Class UnicodeTables := { mapToLower : string → string }.

Module GoStrings.

Definition byte (c : ascii) : Z := Z.of_nat (nat_of_ascii c).

(** [utf8.RuneSelf = 0x80] *)
Definition RuneSelf : Z := 128.

(** ['A' <= c && c <= 'Z'] *)
Definition isUpperByte (c : ascii) : bool :=
  (65 <=? byte c) && (byte c <=? 90).

(** [c += 'a' - 'A'] on upper-case bytes *)
Definition lowerByte (c : ascii) : ascii :=
  if isUpperByte c then ascii_of_nat (Z.to_nat (byte c + 32)) else c.

Fixpoint isASCII (s : string) : bool :=
  match s with
  | EmptyString => true
  | String c s' => (byte c <? RuneSelf) && isASCII s'
  end.

Fixpoint lowerBytes (s : string) : string :=
  match s with
  | EmptyString => EmptyString
  | String c s' => String (lowerByte c) (lowerBytes s')
  end.

Definition ToLower `{UnicodeTables} (s : string) : string :=
  if isASCII s then lowerBytes s else mapToLower s.

(** [strings.ReplaceAll(s, old, new)] for a pattern [old] of one byte, the
    only way the gateway calls it. *)
Fixpoint ReplaceAll1 (s : string) (old : ascii) (new : string) : string :=
  match s with
  | EmptyString => EmptyString
  | String c s' =>
      if Ascii.eqb c old then new +:+ ReplaceAll1 s' old new
      else String c (ReplaceAll1 s' old new)
  end.

(** [strings.Contains(s, sub)] for a one-byte [sub]. *)
Fixpoint Contains1 (s : string) (c : ascii) : bool :=
  match s with
  | EmptyString => false
  | String d s' => Ascii.eqb d c || Contains1 s' c
  end.

(** [strings.LastIndex(s, sub)] for a one-byte [sub]: the byte offset of the
    last occurrence, [-1] when there is none. *)
Fixpoint LastIndex1 (s : string) (c : ascii) : Z :=
  match s with
  | EmptyString => -1
  | String d s' =>
      let r := LastIndex1 s' c in
      if 0 <=? r then r + 1
      else if Ascii.eqb d c then 0 else -1
  end.

(** The slice [s[:n]]. *)
Fixpoint take (n : nat) (s : string) : string :=
  match n, s with
  | S n', String c s' => String c (take n' s')
  | _, _ => EmptyString
  end.

Definition len (s : string) : Z := Z.of_nat (String.length s).

Fixpoint forallb (p : ascii → bool) (s : string) : bool :=
  match s with
  | EmptyString => true
  | String c s' => p c && forallb p s'
  end.

End GoStrings.

(** ** Character classes of the tool-name patterns *)

Module CharClass.
Import GoStrings.

Definition isLower (c : ascii) : bool := (97 <=? byte c) && (byte c <=? 122).
Definition isDigit (c : ascii) : bool := (48 <=? byte c) && (byte c <=? 57).
Definition isUnderscore (c : ascii) : bool := byte c =? 95.
Definition isDot (c : ascii) : bool := byte c =? 46.

(** The class [[a-z0-9_.]] of the MCP tool names. *)
Definition toolNameChar (c : ascii) : bool :=
  isLower c || isDigit c || isUnderscore c || isDot c.

(** The class [[a-zA-Z0-9_.]] of [isValidToolName] in [mcp/validation.go]. *)
Definition validNameChar (c : ascii) : bool :=
  isUpperByte c || toolNameChar c.

(** A whole-string match of [cls+]. *)
Definition matchesPlus (cls : ascii → bool) (s : string) : bool :=
  match s with
  | EmptyString => false
  | _ => forallb cls s
  end.

End CharClass.

(** ** Protobuf descriptors ([protoreflect]), as far as the gateway reads them *)

Module Descriptors.

(** [protoreflect.SourceLocation]: the two comment fields the gateway reads. *)
Record SourceLocation := {
  LeadingComments : string;
  TrailingComments : string
}.

Definition noLocation : SourceLocation :=
  {| LeadingComments := ""; TrailingComments := "" |}.

Record EnumValueDesc := {
  ev_Name : string;
  ev_Location : SourceLocation
}.

Record EnumDesc := {
  enum_Values : list EnumValueDesc;
  enum_Location : SourceLocation
}.

(** [protoreflect.Kind], with what [field.Enum()] and [field.Message()]
    return for the kinds that have them.  A message is referred to by its
    fully-qualified name: descriptors form a graph, possibly cyclic, and the
    registry below resolves the names. *)
Inductive FieldKind :=
| BoolKind | EnumKind (e : EnumDesc)
| Int32Kind | Sint32Kind | Uint32Kind
| Int64Kind | Sint64Kind | Uint64Kind
| Sfixed32Kind | Fixed32Kind | FloatKind
| Sfixed64Kind | Fixed64Kind | DoubleKind
| StringKind | BytesKind
| MessageKind (target : string)
| GroupKind (target : string).

(** [IsList()], [IsMap()] (exclusive in [protoreflect]) and, for a map, the
    kind of [MapValue()]. *)
Inductive FieldShape :=
| Singular
| IsList
| IsMap (valueKind : FieldKind).

Record FieldDesc := {
  fd_Name : string;
  fd_Location : SourceLocation;
  fd_Shape : FieldShape;
  fd_Kind : FieldKind;
  HasOptionalKeyword : bool;
  HasPresence : bool;
  (** [oneof_index] of [FieldDescriptorProto]: the oneof the field is a
      member of. *)
  ContainingOneof : option nat
}.

Record OneofDesc := {
  oo_Name : string;
  oo_Location : SourceLocation
}.

Record MessageDesc := {
  msg_Location : SourceLocation;
  Fields : list FieldDesc;
  Oneofs : list OneofDesc
}.

(** [oneof.Fields()]: the fields of the message declared in the oneof of
    index [i], in declaration order. *)
Definition OneofFields (m : MessageDesc) (i : nat) : list FieldDesc :=
  List.filter (λ f, bool_decide (ContainingOneof f = Some i)) (Fields m).

(** A name the registry does not know resolves to a placeholder descriptor,
    which has no fields ([protoreflect]'s placeholder messages). *)
Definition placeholder : MessageDesc :=
  {| msg_Location := noLocation; Fields := []; Oneofs := [] |}.

Definition descriptorOf (reg : gmap string MessageDesc) (fullName : string)
  : MessageDesc :=
  default placeholder (reg !! fullName).

End Descriptors.

(** ** [types/service.go] *)

Module Types.
Import GoStrings.

(** [MethodInfo].  The descriptors are held by fully-qualified name; the
    optional debugging fields ([Comments], [SourceLocation],
    [CustomOptions], [FileDescriptor]) are read by no modelled function. *)
Record MethodInfo := {
  Name : string;
  FullName : string;
  ToolName : string;
  ServiceName : string;
  ServiceDescription : string;
  Description : string;
  InputType : string;
  OutputType : string;
  InputDescriptor : string;
  OutputDescriptor : string;
  IsClientStreaming : bool;
  IsServerStreaming : bool
}.

Definition GenerateToolName `{UnicodeTables} (m : MethodInfo) : string :=
  let servicePart := ToLower (ReplaceAll1 (ServiceName m) "."%char "_") in
  let methodPart := ToLower (Name m) in
  servicePart +:+ "_" +:+ methodPart.

End Types.

(** ** [headers/filter.go] *)

Module Headers.
Import GoStrings.

Record HeaderForwardingConfig := {
  Enabled : bool;
  AllowedHeaders : list string;
  BlockedHeaders : list string;
  ForwardAll : bool;
  CaseSensitive : bool
}.

Section filter.
Context `{UnicodeTables}.
Variable config : HeaderForwardingConfig.

(** The normalisation applied to the header name and to every list
    entry before they are compared. *)
Definition normalize (name : string) : string :=
  if negb (CaseSensitive config) then ToLower name else name.

(** The two [for ... range] loops of [ShouldForward]: is there an entry
    whose normalised form equals [name]? *)
Fixpoint matchesAny (name : string) (entries : list string) : bool :=
  match entries with
  | [] => false
  | entry :: rest =>
      if String.eqb name (normalize entry) then true
      else matchesAny name rest
  end.

Definition ShouldForward (headerName : string) : bool :=
  if negb (Enabled config) then false
  else
    let name := normalize headerName in
    if matchesAny name (BlockedHeaders config) then false
    else if ForwardAll config then true
    else if matchesAny name (AllowedHeaders config) then true
    else false.

(** The specification's side, written from its words and not from the
    code above.  [inList] is "the (case-folded, unless caseSensitive) name
    is in the list", read to the letter: the name is folded, the list is
    taken as it stands. *)
Definition inList (name : string) (entries : list string) : Prop :=
  (if CaseSensitive config then name else ToLower name) ∈ entries.

(** [listed] is the reading of the data model, "all comparisons are on
    lowercase folds": some entry of the list has the same lower-case fold
    as the name, or the same bytes when the policy is case sensitive. *)
Definition listed (name : string) (entries : list string) : Prop :=
  ∃ entry,
    entry ∈ entries
    ∧ if CaseSensitive config then entry = name
      else ToLower entry = ToLower name.

(** The loop over the map writes each kept entry under its own key. *)
Definition FilterHeaders (headers : gmap string string) : gmap string string :=
  if negb (Enabled config) then ∅
  else
    map_fold (λ name value filtered,
               if ShouldForward name then <[name := value]> filtered
               else filtered)
             ∅ headers.
End filter.

End Headers.

(** ** JSON values ([interface{}] trees built from maps, slices and scalars) *)

#[local] Set Warnings "-register-all".
#[local] Set Warnings "-clear-no-such-hyp".

Inductive JSON :=
| JNull
| JString (s : string)
| JNumber (n : Z)
| JBool (b : bool)
| JArray (l : list JSON)
| JObject (m : gmap string JSON).

(** The outcome of a call of the projector: a value, a Go [error], or the
    exhaustion of the recursion budget of the model. *)
Inductive outcome (A : Type) :=
| Done (a : A)
| Failed (err : string)
| OutOfFuel.
Arguments Done {A} a.
Arguments Failed {A} err.
Arguments OutOfFuel {A}.

(** ** [tools/builder.go]: the schema projector *)

Module Builder.
Import GoStrings Descriptors.

Definition newline : string := String (ascii_of_nat 10) EmptyString.

Definition nonEmpty (s : string) : bool := negb (String.eqb s "").

(** [extractComments], on the source location of the descriptor. *)
Definition extractComments (loc : SourceLocation) : string :=
  let comments := "" in
  let comments :=
    if nonEmpty (LeadingComments loc) then LeadingComments loc else comments in
  if nonEmpty (TrailingComments loc) then
    if nonEmpty comments then comments +:+ newline +:+ TrailingComments loc
    else TrailingComments loc
  else comments.

(** The inner [switch msgDesc.FullName()] of
    [extractFieldTypeSchemaInternal]: the schema of a well-known type, or
    [None] in the [default] case. *)
Definition wellKnownSchema (fullName : string) : option (gmap string JSON) :=
  let named n := String.eqb fullName n in
  if named "google.protobuf.Any" then
    Some (<["description" :=
             JString "Any contains an arbitrary serialized protocol buffer message"]>
          (<["type" := JString "object"]> ∅))
  else if named "google.protobuf.Timestamp" then
    Some (<["description" := JString "RFC 3339 formatted timestamp"]>
          (<["format" := JString "date-time"]>
          (<["type" := JString "string"]> ∅)))
  else if named "google.protobuf.Duration" then
    Some (<["description" :=
             JString "Duration in seconds with up to 9 fractional digits"]>
          (<["format" := JString "duration"]>
          (<["type" := JString "string"]> ∅)))
  else if named "google.protobuf.Struct" then
    Some (<["description" := JString "Arbitrary JSON-like structure"]>
          (<["type" := JString "object"]> ∅))
  else if named "google.protobuf.Value" then
    Some (<["description" := JString "Any JSON value"]> ∅)
  else if named "google.protobuf.ListValue" then
    Some (<["description" := JString "Array of JSON values"]>
          (<["type" := JString "array"]> ∅))
  else if named "google.protobuf.StringValue" || named "google.protobuf.BytesValue" then
    Some (<["type" := JString "string"]> ∅)
  else if named "google.protobuf.BoolValue" then
    Some (<["type" := JString "boolean"]> ∅)
  else if named "google.protobuf.Int32Value" || named "google.protobuf.UInt32Value"
          || named "google.protobuf.Int64Value" || named "google.protobuf.UInt64Value" then
    Some (<["type" := JString "integer"]> ∅)
  else if named "google.protobuf.FloatValue" || named "google.protobuf.DoubleValue" then
    Some (<["type" := JString "number"]> ∅)
  else None.

(** The [EnumKind] case: the loop over the values collects the names and
    the non-empty value comments. *)
Definition enumSchema (enumDesc : EnumDesc) : gmap string JSON :=
  let enumValues := (λ v, JString (ev_Name v)) <$> enum_Values enumDesc in
  let enumDescriptions : gmap string JSON :=
    fold_left (λ descriptions v,
                let desc := extractComments (ev_Location v) in
                if nonEmpty desc then <[ev_Name v := JString desc]> descriptions
                else descriptions)
              (enum_Values enumDesc) ∅ in
  let schema := <["type" := JString "string"]> ∅ in
  let schema := <["enum" := JArray enumValues]> schema in
  let schema :=
    let desc := extractComments (enum_Location enumDesc) in
    if nonEmpty desc then <["description" := JString desc]> schema else schema in
  if (0 <? size enumDescriptions)%nat
  then <["enumDescriptions" := JObject enumDescriptions]> schema
  else schema.

Definition typed (type : string) : gmap string JSON :=
  <["type" := JString type]> ∅.

Definition typedFormat (type format : string) : gmap string JSON :=
  <["format" := JString format]> (typed type).

Section projector.
(** The descriptor graph: the message of each fully-qualified name. *)
Variable reg : gmap string MessageDesc.

Section fields.
(** The recursive call of [extractMessageSchemaInternal], on the
    message [field.Message()] and the shared [visited] map. *)
Variable extractMessage : string → gset string → outcome JSON * gset string.

Definition extractFieldTypeSchemaInternal
    (kind : FieldKind) (visited : gset string) : outcome JSON * gset string :=
  match kind with
  | BoolKind => (Done (JObject (typed "boolean")), visited)
  | Int32Kind | Sint32Kind | Sfixed32Kind =>
      (Done (JObject (typedFormat "integer" "int32")), visited)
  | Int64Kind | Sint64Kind | Sfixed64Kind =>
      (Done (JObject (typedFormat "integer" "int64")), visited)
  | Uint32Kind | Fixed32Kind =>
      (Done (JObject (<["minimum" := JNumber 0]> (typedFormat "integer" "uint32"))),
       visited)
  | Uint64Kind | Fixed64Kind =>
      (Done (JObject (<["minimum" := JNumber 0]> (typedFormat "integer" "uint64"))),
       visited)
  | FloatKind => (Done (JObject (typedFormat "number" "float")), visited)
  | DoubleKind => (Done (JObject (typedFormat "number" "double")), visited)
  | StringKind => (Done (JObject (typed "string")), visited)
  | BytesKind => (Done (JObject (typedFormat "string" "byte")), visited)
  | EnumKind enumDesc => (Done (JObject (enumSchema enumDesc)), visited)
  | MessageKind target =>
      match wellKnownSchema target with
      | Some schema => (Done (JObject schema), visited)
      | None =>
          match extractMessage target visited with
          | (Failed err, visited) =>
              (Failed ("failed to extract schema for message " +:+ target
                       +:+ ": " +:+ err), visited)
          | r => r
          end
      end
  | GroupKind _ => (Failed "unsupported field kind: group", visited)
  end.

Definition extractFieldSchemaInternal
    (field : FieldDesc) (visited : gset string) : outcome JSON * gset string :=
  let schema : gmap string JSON := ∅ in
  let schema :=
    let desc := extractComments (fd_Location field) in
    if nonEmpty desc then <["description" := JString desc]> schema else schema in
  match fd_Shape field with
  | IsList =>
      match extractFieldTypeSchemaInternal (fd_Kind field) visited with
      | (Done itemSchema, visited) =>
          (Done (JObject (<["items" := itemSchema]>
                         (<["type" := JString "array"]> schema))), visited)
      | r => r
      end
  | IsMap valueKind =>
      match extractFieldTypeSchemaInternal valueKind visited with
      | (Done valueSchema, visited) =>
          (Done (JObject
             (<["additionalProperties" := JBool false]>
             (<["patternProperties" := JObject {[ ".*" := valueSchema ]}]>
             (<["type" := JString "object"]> schema)))), visited)
      | r => r
      end
  | Singular => extractFieldTypeSchemaInternal (fd_Kind field) visited
  end.

(** The loop over [msgDesc.Fields()]: a field whose schema fails is
    logged and skipped. *)
Fixpoint fieldsLoop (fields : list FieldDesc)
    (properties : gmap string JSON) (required : list string)
    (visited : gset string)
  : option (gmap string JSON * list string) * gset string :=
  match fields with
  | [] => (Some (properties, required), visited)
  | field :: rest =>
      match extractFieldSchemaInternal field visited with
      | (OutOfFuel, visited) => (None, visited)
      | (Failed _, visited) => fieldsLoop rest properties required visited
      | (Done fieldSchema, visited) =>
          let properties := <[fd_Name field := fieldSchema]> properties in
          let required :=
            if HasOptionalKeyword field || HasPresence field then required
            else required ++ [fd_Name field] in
          fieldsLoop rest properties required visited
      end
  end.

(** One alternative of a oneof. *)
Definition oneofOption (fieldName : string) (fieldSchema : JSON) : JSON :=
  JObject (<["required" := JArray [JString fieldName]]>
          (<["properties" := JObject {[ fieldName := fieldSchema ]}]>
          (<["type" := JString "object"]> ∅))).

(** The loop over [oneof.Fields()]. *)
Fixpoint oneofFieldsLoop (fields : list FieldDesc) (options : list JSON)
    (visited : gset string) : option (list JSON) * gset string :=
  match fields with
  | [] => (Some options, visited)
  | field :: rest =>
      match extractFieldSchemaInternal field visited with
      | (OutOfFuel, visited) => (None, visited)
      | (Failed _, visited) => oneofFieldsLoop rest options visited
      | (Done fieldSchema, visited) =>
          oneofFieldsLoop rest
            (options ++ [oneofOption (fd_Name field) fieldSchema]) visited
      end
  end.

Definition oneofSchema (oneof : OneofDesc) (options : list JSON)
  : gmap string JSON :=
  let schema := <["type" := JString "object"]> ∅ in
  let schema :=
    let desc := extractComments (oo_Location oneof) in
    if nonEmpty desc then <["description" := JString desc]> schema else schema in
  <["oneOf" := JArray options]> schema.

(** The loop over [msgDesc.Oneofs()], from the oneof of index [i] on. *)
Fixpoint oneofsLoop (msgDesc : MessageDesc) (i : nat) (oneofs : list OneofDesc)
    (properties : gmap string JSON) (visited : gset string)
  : option (gmap string JSON) * gset string :=
  match oneofs with
  | [] => (Some properties, visited)
  | oneof :: rest =>
      match oneofFieldsLoop (OneofFields msgDesc i) [] visited with
      | (None, visited) => (None, visited)
      | (Some options, visited) =>
          oneofsLoop msgDesc (S i) rest
            (<[oo_Name oneof := JObject (oneofSchema oneof options)]> properties)
            visited
      end
  end.
End fields.

Definition refSchema (fullName : string) : JSON :=
  JObject {[ "$ref" := JString ("#/definitions/" +:+ fullName) ]}.

Definition messageSchema (msgDesc : MessageDesc)
    (properties : gmap string JSON) (required : list string) : JSON :=
  let schema := <["properties" := JObject properties]>
                (<["type" := JString "object"]> ∅) in
  let schema :=
    let desc := extractComments (msg_Location msgDesc) in
    if nonEmpty desc then <["description" := JString desc]> schema else schema in
  let schema :=
    if (0 <? length required)%nat
    then <["required" := JArray (JString <$> required)]> schema
    else schema in
  JObject schema.

(** [extractMessageSchemaInternal], on the message of name [fullName].
    [visited] is the Go map shared by the whole projection: it is
    returned as the call leaves it, the deferred [delete] included.  Go
    recurses without a bound; here every message that is expanded spends
    one unit of [fuel]. *)
Fixpoint extractMessageSchemaInternal (fuel : nat) (fullName : string)
    (visited : gset string) : outcome JSON * gset string :=
  match fuel with
  | O => (OutOfFuel, visited)
  | S fuel =>
      if bool_decide (fullName ∈ visited) then (Done (refSchema fullName), visited)
      else
        let msgDesc := descriptorOf reg fullName in
        let visited := {[ fullName ]} ∪ visited in
        let recurse := extractMessageSchemaInternal fuel in
        match fieldsLoop recurse (Fields msgDesc) ∅ [] visited with
        | (None, visited) => (OutOfFuel, visited ∖ {[ fullName ]})
        | (Some (properties, required), visited) =>
            match oneofsLoop recurse msgDesc 0 (Oneofs msgDesc) properties visited with
            | (None, visited) => (OutOfFuel, visited ∖ {[ fullName ]})
            | (Some properties, visited) =>
                (Done (messageSchema msgDesc properties required),
                 visited ∖ {[ fullName ]})
            end
        end
  end.

(** [ExtractMessageSchema]: a fresh [visited] map.  One more unit of fuel
    than the registry has messages is enough for every message
    (see [extractMessageSchemaInternal_terminates]). *)
Definition ExtractMessageSchema (fullName : string) : outcome JSON :=
  (extractMessageSchemaInternal (S (size reg)) fullName ∅).1.

End projector.
End Builder.

(** A Go result [(value, error)]. *)
Inductive result (A : Type) :=
| Ok (a : A)
| Err (err : string).
Arguments Ok {A} a.
Arguments Err {A} err.

(** A Go call either returns or panics. *)
Inductive execution (A : Type) :=
| Returns (a : A)
| Panics (reason : string).
Arguments Returns {A} a.
Arguments Panics {A} reason.

(** A Go slice that may be [nil]. *)
Abbreviation slice A := (option (list A)).

(** ** [tools/builder.go]: the tool builder *)

Module Tools.
Import GoStrings Descriptors Types Builder.

(** [mcp.Tool]; a schema of [None] is a [nil] interface. *)
Record Tool := {
  tool_Name : string;
  tool_Description : string;
  InputSchema : option JSON;
  OutputSchema : option JSON
}.

Definition generateDescription (method : MethodInfo) : string :=
  if nonEmpty (Description method) then Description method
  else "Calls the " +:+ Name method +:+ " method of the "
       +:+ ServiceName method +:+ " service".

Definition validateTool (tool : Tool) : option string :=
  if String.eqb (tool_Name tool) "" then Some "tool name cannot be empty"
  else if String.eqb (tool_Description tool) "" then
    Some "tool description cannot be empty"
  else if negb (bool_decide (is_Some (InputSchema tool))) then
    Some "tool input schema cannot be nil"
  else if negb (Contains1 (tool_Name tool) "_"%char) then
    Some "tool name must contain underscore separator"
  else None.

Section builder.
Context `{UnicodeTables}.
Variable reg : gmap string MessageDesc.

Definition BuildTool (method : MethodInfo) : outcome Tool :=
  let toolName := GenerateToolName method in
  let description := generateDescription method in
  match ExtractMessageSchema reg (InputDescriptor method) with
  | OutOfFuel => OutOfFuel
  | Failed err => Failed ("failed to generate input schema: " +:+ err)
  | Done inputSchema =>
      match ExtractMessageSchema reg (OutputDescriptor method) with
      | OutOfFuel => OutOfFuel
      | Failed err => Failed ("failed to generate output schema: " +:+ err)
      | Done outputSchema =>
          let tool := {| tool_Name := toolName;
                         tool_Description := description;
                         InputSchema := Some inputSchema;
                         OutputSchema := Some outputSchema |} in
          match validateTool tool with
          | Some err => Failed ("tool validation failed: " +:+ err)
          | None => Done tool
          end
      end
  end.

(** The loop of [BuildTools], with the tools appended so far. *)
Fixpoint buildToolsLoop (methods : list MethodInfo) (tools : list Tool)
  : outcome (list Tool) :=
  match methods with
  | [] => Done tools
  | method :: rest =>
      if IsClientStreaming method || IsServerStreaming method
      then buildToolsLoop rest tools
      else
        match BuildTool method with
        | OutOfFuel => OutOfFuel
        | Failed _ => buildToolsLoop rest tools
        | Done tool => buildToolsLoop rest (tools ++ [tool])
        end
  end.

Definition BuildTools (methods : list MethodInfo) : outcome (list Tool) :=
  buildToolsLoop methods [].
End builder.
End Tools.

(** ** The upstream and the encoders the gateway calls *)

(** The content of a dynamic message is opaque to the gateway: it is made by
    [dynamicpb.NewMessage] and [protojson.Unmarshal], sent by [conn.Invoke]
    and read by [protojson.Marshal]. *)
Class World := {
  MessageFields : Type;
  (** the fields of [dynamicpb.NewMessage(desc)]: none is set *)
  noFields : MessageFields;
  (** [protojson.Unmarshal(json, msg)] on a fresh message of the descriptor *)
  protojson_Unmarshal : string → string → result MessageFields;
  (** [conn.Invoke(ctx, method, in, out)]: outgoing metadata, method path,
      request, descriptor of the reply *)
  conn_Invoke :
    gmap string string → string → string * MessageFields → string → result MessageFields;
  (** [protojson.Marshal(msg)] *)
  protojson_Marshal : string * MessageFields → result string;
  (** [json.Marshal] of the [arguments] value *)
  json_Marshal : JSON → result string;
  (** [mcp.SanitizeError]: redaction by regular expressions *)
  SanitizeError : string → string
}.

(** What reaches the encoders and the upstream channel, in order. *)
Inductive Event `{World} :=
| EvUnmarshal (json descriptor : string)
| EvInvoke (metadata : gmap string string) (grpcMethodName : string)
           (inputMsg : string * MessageFields).

Definition isInvoke `{World} (e : Event) : bool :=
  match e with
  | EvInvoke _ _ _ => true
  | EvUnmarshal _ _ => false
  end.

(** ** [grpc/reflection.go] *)

Module Reflection.
Import GoStrings Types Builder.

(** [descriptorpb]: the parts of a file descriptor that method extraction
    reads. *)
Record MethodDescriptorProto := {
  mdp_Name : string;
  mdp_InputType : string;
  mdp_OutputType : string;
  mdp_ClientStreaming : bool;
  mdp_ServerStreaming : bool
}.

Record ServiceDescriptorProto := {
  sdp_Name : string;
  sdp_Method : list MethodDescriptorProto
}.

Record FileDescriptorProto := {
  fdp_Name : string;
  fdp_Package : string;
  fdp_Service : list ServiceDescriptorProto;
  (** the fully-qualified names of the messages that [protodesc.NewFile]
      and the registries resolve for this file *)
  fdp_Messages : gset string
}.

(** [strings.TrimPrefix(typeName, ".")] *)
Definition trimLeadingDot (typeName : string) : string :=
  match typeName with
  | String "." rest => rest
  | _ => typeName
  end.

Definition resolveMessageDescriptor (typeName : string)
    (fileDescriptor : FileDescriptorProto) : result string :=
  let typeName := trimLeadingDot typeName in
  if bool_decide (typeName ∈ fdp_Messages fileDescriptor) then Ok typeName
  else Err ("failed to find message descriptor for " +:+ typeName).

Section discovery.
Context `{UnicodeTables}.

Definition createMethodInfoWithServiceContext (serviceName : string)
    (method : MethodDescriptorProto) (fileDescriptor : FileDescriptorProto)
  : result MethodInfo :=
  let methodInfo := {|
    Name := mdp_Name method;
    FullName := serviceName +:+ "." +:+ mdp_Name method;
    ToolName := "";
    ServiceName := serviceName;
    ServiceDescription := "";
    Description := "";
    InputType := mdp_InputType method;
    OutputType := mdp_OutputType method;
    InputDescriptor := "";
    OutputDescriptor := "";
    IsClientStreaming := mdp_ClientStreaming method;
    IsServerStreaming := mdp_ServerStreaming method |} in
  let toolName := GenerateToolName methodInfo in
  match resolveMessageDescriptor (mdp_InputType method) fileDescriptor with
  | Err err =>
      Err ("failed to resolve input descriptor for " +:+ mdp_InputType method
           +:+ ": " +:+ err)
  | Ok inputDescriptor =>
      match resolveMessageDescriptor (mdp_OutputType method) fileDescriptor with
      | Err err =>
          Err ("failed to resolve output descriptor for "
               +:+ mdp_OutputType method +:+ ": " +:+ err)
      | Ok outputDescriptor =>
          Ok {| Name := Name methodInfo;
                FullName := FullName methodInfo;
                ToolName := toolName;
                ServiceName := serviceName;
                ServiceDescription := "";
                Description := "";
                InputType := InputType methodInfo;
                OutputType := OutputType methodInfo;
                InputDescriptor := inputDescriptor;
                OutputDescriptor := outputDescriptor;
                IsClientStreaming := IsClientStreaming methodInfo;
                IsServerStreaming := IsServerStreaming methodInfo |}
      end
  end.

(** The inner loop of [extractMethodsFromFileDescriptor]: a method whose
    descriptors do not resolve is logged and skipped. *)
Fixpoint methodsOfService (fullServiceName : string)
    (methods : list MethodDescriptorProto) (fileDescriptor : FileDescriptorProto)
  : list MethodInfo :=
  match methods with
  | [] => []
  | method :: rest =>
      match createMethodInfoWithServiceContext fullServiceName method
              fileDescriptor with
      | Err _ => methodsOfService fullServiceName rest fileDescriptor
      | Ok methodInfo =>
          methodInfo :: methodsOfService fullServiceName rest fileDescriptor
      end
  end.

Definition fullServiceNameOf (fileDescriptor : FileDescriptorProto)
    (service : ServiceDescriptorProto) : string :=
  if nonEmpty (fdp_Package fileDescriptor)
  then fdp_Package fileDescriptor +:+ "." +:+ sdp_Name service
  else sdp_Name service.

Definition extractMethodsFromFileDescriptor
    (fileDescriptor : FileDescriptorProto) (targetServices : list string)
  : list MethodInfo :=
  flat_map (λ service,
             let fullServiceName := fullServiceNameOf fileDescriptor service in
             if bool_decide (fullServiceName ∈ targetServices)
             then methodsOfService fullServiceName (sdp_Method service)
                    fileDescriptor
             else [])
           (fdp_Service fileDescriptor).
End discovery.

Section invoke.
Context `{World}.

Definition NewMessage (descriptor : string) : string * MessageFields :=
  (descriptor, noFields).

(** The wire path [/package.Service/Method]: the full name sliced at
    its last dot, and the method name. *)
Definition grpcMethodNameOf (method : MethodInfo) : string :=
  "/" +:+ take (Z.to_nat (LastIndex1 (FullName method) "."%char)) (FullName method)
      +:+ "/" +:+ Name method.

(** [InvokeMethod]: the result, and what it handed to the parser and to
    the channel. *)
Definition InvokeMethod (headers : gmap string string) (method : MethodInfo)
    (inputJSON : string) : execution (result string) * list Event :=
  let inputMsg := NewMessage (InputDescriptor method) in
  let parsed :=
    if nonEmpty inputJSON && negb (String.eqb inputJSON "{}") then
      (match protojson_Unmarshal inputJSON (InputDescriptor method) with
       | Err err => Err ("failed to parse input JSON: " +:+ err)
       | Ok fields => Ok (InputDescriptor method, fields)
       end,
       [EvUnmarshal inputJSON (InputDescriptor method)])
    else (Ok inputMsg, []) in
  match parsed with
  | (Err err, log) => (Returns (Err err), log)
  | (Ok inputMsg, log) =>
      let lastDot := LastIndex1 (FullName method) "."%char in
      if lastDot <? 0 then (Panics "slice bounds out of range", log)
      else
        let grpcMethodName := grpcMethodNameOf method in
        let log := log ++ [EvInvoke headers grpcMethodName inputMsg] in
        match conn_Invoke headers grpcMethodName inputMsg
                (OutputDescriptor method) with
        | Err err => (Returns (Err ("gRPC call failed: " +:+ err)), log)
        | Ok outputFields =>
            match protojson_Marshal (OutputDescriptor method, outputFields) with
            | Err err =>
                (Returns (Err ("failed to marshal output to JSON: " +:+ err)), log)
            | Ok outputJSON => (Returns (Ok outputJSON), log)
            end
        end
  end.
End invoke.
End Reflection.

(** ** [grpc/discovery.go] *)

Module Discovery.
Import GoStrings Types Builder.

(** The state of the discoverer that the modelled methods read and write:
    whether [reflectionClient] is set, the descriptor-set configuration and
    the map behind the atomic [tools] pointer. *)
Record serviceDiscoverer := {
  reflectionClient : bool;
  descriptorEnabled : bool;
  descriptorPath : string;
  tools : gmap string MethodInfo
}.

(** What the two discovery sources return when they are asked. *)
Record Sources := {
  discoverFromFileDescriptor : result (slice MethodInfo);
  discoverFromReflection : result (slice MethodInfo)
}.

(** The loop that fills the new tool map; a [nil] slice has no elements. *)
Definition toolMapOf (methods : slice MethodInfo) : gmap string MethodInfo :=
  fold_left (λ tools method, <[ToolName method := method]> tools)
            (default [] methods) ∅.

Definition DiscoverServices (d : serviceDiscoverer) (sources : Sources)
  : option string * serviceDiscoverer :=
  if negb (reflectionClient d) then (Some "not connected to gRPC server", d)
  else
    let methods : slice MethodInfo := None in
    let methods :=
      if descriptorEnabled d && nonEmpty (descriptorPath d) then
        match discoverFromFileDescriptor sources with
        | Ok methods => methods
        | Err _ => None
        end
      else methods in
    let discovered :=
      match methods with
      | None =>
          match discoverFromReflection sources with
          | Err err =>
              Err ("failed to discover services via reflection: " +:+ err)
          | Ok methods => Ok methods
          end
      | Some _ => Ok methods
      end in
    match discovered with
    | Err err => (Some err, d)
    | Ok methods =>
        (None, {| reflectionClient := reflectionClient d;
                  descriptorEnabled := descriptorEnabled d;
                  descriptorPath := descriptorPath d;
                  tools := toolMapOf methods |})
    end.

Definition getMethodByTool (d : serviceDiscoverer) (toolName : string)
  : option MethodInfo :=
  tools d !! toolName.

Section invoke.
Context `{World}.

Definition InvokeMethodByTool (d : serviceDiscoverer)
    (headers : gmap string string) (toolName inputJSON : string)
  : execution (result string) * list Event :=
  match getMethodByTool d toolName with
  | None => (Returns (Err ("tool " +:+ toolName +:+ " not found")), [])
  | Some method =>
      if IsClientStreaming method || IsServerStreaming method then
        (Returns (Err "streaming methods are not supported"), [])
      else if negb (reflectionClient d) then
        (Returns (Err "not connected to gRPC server"), [])
      else
        match Reflection.InvokeMethod headers method inputJSON with
        | (Returns (Err err), log) =>
            (Returns (Err ("failed to invoke method: " +:+ err)), log)
        | r => r
        end
  end.
End invoke.
End Discovery.

(** ** [mcp/validation.go] *)

Module Validation.
Import GoStrings CharClass.

Definition itoa (n : Z) : string :=
  DecimalString.NilZero.string_of_int (Z.to_int n).

Record Validator := {
  maxFieldLength : Z;
  maxToolName : Z
}.

Definition NewValidator : Validator :=
  {| maxFieldLength := 1024; maxToolName := 128 |}.

Definition isValidToolName (name : string) : bool :=
  matchesPlus validNameChar name.

(** The first error of a loop over the values of a map or of a slice. *)
Definition firstError {A} (check : A → option string)
    (err : option string) (value : A) : option string :=
  match err with
  | Some e => Some e
  | None => check value
  end.

Fixpoint validateDepth (obj : JSON) (depth maxDepth : Z) : option string :=
  if maxDepth <? depth then
    Some ("object nesting too deep (max " +:+ itoa maxDepth +:+ ")")
  else
    match obj with
    | JObject val =>
        map_fold (λ _ value err,
                   firstError (λ v, validateDepth v (depth + 1) maxDepth) err value)
                 None val
    | JArray val =>
        fold_left (firstError (λ v, validateDepth v (depth + 1) maxDepth)) val None
    | _ => None
    end.

Fixpoint calculateSize (obj : JSON) : Z :=
  match obj with
  | JString v => len v
  | JObject v =>
      map_fold (λ key value size, size + (len key + calculateSize value)) 0 v
  | JArray v => fold_left (λ size value, size + calculateSize value) v 0
  | _ => 8
  end.

Definition validateSize (obj : JSON) : option string :=
  let maxSize := 1024 * 1024 in
  if maxSize <? calculateSize obj then
    Some ("object too large (max " +:+ itoa maxSize +:+ " bytes)")
  else None.

Definition validateParams (params : gmap string JSON) : option string :=
  match validateDepth (JObject params) 0 10 with
  | Some err => Some err
  | None => validateSize (JObject params)
  end.

Section validator.
Variable v : Validator.

(** [validateArguments]; the inner [loop] is the loop over a slice of
    arguments, from index [i] on. *)
Fixpoint validateArguments (args : JSON) : option string :=
  match args with
  | JObject val => validateParams val
  | JArray val =>
      (fix loop (i : Z) (val : list JSON) : option string :=
         match val with
         | [] => None
         | arg :: rest =>
             match validateArguments arg with
             | Some err => Some ("argument[" +:+ itoa i +:+ "]: " +:+ err)
             | None => loop (i + 1) rest
             end
         end) 0 val
  | JString val =>
      if maxFieldLength v <? len val then
        Some ("string too long (max " +:+ itoa (maxFieldLength v) +:+ ")")
      else None
  | _ => None
  end.

(** [ValidateToolCallParams]: the message of the first error that was
    added, as [ValidationErrors.Error] prints it, or [None]. *)
Definition ValidateToolCallParams (params : gmap string JSON) : option string :=
  let errors : list string := [] in
  let errors :=
    match params !! "name" with
    | None => errors ++ ["is required"]
    | Some (JString nameStr) =>
        if String.eqb nameStr "" then errors ++ ["cannot be empty"]
        else if maxToolName v <? len nameStr then
          errors ++ ["must be less than " +:+ itoa (maxToolName v) +:+ " characters"]
        else if negb (isValidToolName nameStr) then
          errors ++ ["contains invalid characters"]
        else errors
    | Some _ => errors ++ ["must be a string"]
    end in
  let errors :=
    match params !! "arguments" with
    | Some args =>
        match validateArguments args with
        | Some err => errors ++ [err]
        | None => errors
        end
    | None => errors
    end in
  match errors with
  | [] => None
  | first :: _ => Some ("validation errors: " +:+ first)
  end.
End validator.
End Validation.

(** ** [session/manager.go] *)

Module Session.

(** [int64] arithmetic wraps around. *)
Definition wrap64 (n : Z) : Z := (n + 2 ^ 63) mod 2 ^ 64 - 2 ^ 63.

(** [session.Context]; times are in nanoseconds. *)
Record Context := {
  ID : string;
  Headers : gmap string string;
  CreatedAt : Z;
  LastAccessed : Z;
  CallCount : Z;
  UserAgent : string;
  RemoteAddr : string;
  RequestCount : Z;
  WindowStart : Z;
  IsBlocked : bool
}.

(** [session.Manager]: the live entries of the cache and the rate-limit
    configuration. *)
Record Manager := {
  cache : gmap string Context;
  requestsPerMinute : Z;
  windowSize : Z
}.

Definition minute : Z := 60 * 1000000000.

(** The rate-limit settings of [NewManager]. *)
Definition NewManager : Manager :=
  {| cache := ∅; requestsPerMinute := 100; windowSize := minute |}.

Definition GetSession (m : Manager) (sessionID : string) : option Context :=
  cache m !! sessionID.

Definition withWindow (ctx : Context) (requestCount windowStart : Z) : Context :=
  {| ID := ID ctx; Headers := Headers ctx; CreatedAt := CreatedAt ctx;
     LastAccessed := LastAccessed ctx; CallCount := CallCount ctx;
     UserAgent := UserAgent ctx; RemoteAddr := RemoteAddr ctx;
     RequestCount := requestCount; WindowStart := windowStart;
     IsBlocked := IsBlocked ctx |}.

Definition store (m : Manager) (sessionID : string) (ctx : Context) : Manager :=
  {| cache := <[sessionID := ctx]> (cache m);
     requestsPerMinute := requestsPerMinute m;
     windowSize := windowSize m |}.

(** [CheckRateLimit] at the time [now]: the answer, and the manager with
    the session as the call leaves it. *)
Definition CheckRateLimit (m : Manager) (sessionID : string) (now : Z)
  : bool * Manager :=
  match GetSession m sessionID with
  | None => (true, m)
  | Some ctx =>
      let ctx :=
        if windowSize m <? now - WindowStart ctx then withWindow ctx 0 now
        else ctx in
      if requestsPerMinute m <=? RequestCount ctx then
        (false, store m sessionID ctx)
      else
        (true, store m sessionID
                 (withWindow ctx (wrap64 (RequestCount ctx + 1)) (WindowStart ctx)))
  end.

(** A run of [CheckRateLimit] calls of one session, at the given times. *)
Fixpoint checkAll (m : Manager) (sessionID : string) (times : list Z)
  : list bool * Manager :=
  match times with
  | [] => ([], m)
  | now :: rest =>
      let '(allowed, m) := CheckRateLimit m sessionID now in
      let '(answers, m) := checkAll m sessionID rest in
      (allowed :: answers, m)
  end.

Definition IncrementCallCount (ctx : Context) : Context :=
  {| ID := ID ctx; Headers := Headers ctx; CreatedAt := CreatedAt ctx;
     LastAccessed := LastAccessed ctx; CallCount := wrap64 (CallCount ctx + 1);
     UserAgent := UserAgent ctx; RemoteAddr := RemoteAddr ctx;
     RequestCount := RequestCount ctx; WindowStart := WindowStart ctx;
     IsBlocked := IsBlocked ctx |}.

Definition UpdateLastAccessed (ctx : Context) (now : Z) : Context :=
  {| ID := ID ctx; Headers := Headers ctx; CreatedAt := CreatedAt ctx;
     LastAccessed := now; CallCount := CallCount ctx;
     UserAgent := UserAgent ctx; RemoteAddr := RemoteAddr ctx;
     RequestCount := RequestCount ctx; WindowStart := WindowStart ctx;
     IsBlocked := IsBlocked ctx |}.

End Session.

(** ** [server/handler.go]: the [tools/call] dispatcher *)

Module Server.
Import Types Headers Discovery Validation Session.

Record ContentBlock := {
  cb_Type : string;
  cb_Text : string
}.

Definition TextContent (text : string) : ContentBlock :=
  {| cb_Type := "text"; cb_Text := text |}.

Record ToolCallResult := {
  Content : list ContentBlock;
  IsError : bool
}.

Record Handler := {
  validator : Validator;
  serviceDiscoverer : Discovery.serviceDiscoverer;
  sessionManager : Manager;
  headerFilter : HeaderForwardingConfig
}.

Section handler.
Context `{UnicodeTables} `{World}.

(** The text [argumentsJSON]: empty unless [arguments] is there and is
    not [nil]. *)
Definition marshalArguments (params : gmap string JSON) : result string :=
  match params !! "arguments" with
  | None | Some JNull => Ok ""
  | Some args =>
      match json_Marshal args with
      | Err err => Err ("failed to marshal arguments: " +:+ err)
      | Ok argBytes => Ok argBytes
      end
  end.

(** [handleToolsCall] at the time [now]: the result, the session as the
    call leaves it, and what reached the parser and the channel. *)
Definition handleToolsCall (h : Handler) (now : Z)
    (params : gmap string JSON) (sessionCtx : Context)
  : execution (result ToolCallResult) * Context * list Event :=
  match ValidateToolCallParams (validator h) params with
  | Some err => (Returns (Err ("invalid parameters: " +:+ err)), sessionCtx, [])
  | None =>
      match params !! "name" with
      | Some (JString toolName) =>
          match marshalArguments params with
          | Err err => (Returns (Err err), sessionCtx, [])
          | Ok argumentsJSON =>
              let filteredHeaders :=
                FilterHeaders (headerFilter h) (Session.Headers sessionCtx) in
              match InvokeMethodByTool (serviceDiscoverer h) filteredHeaders
                      toolName argumentsJSON with
              | (Panics reason, log) => (Panics reason, sessionCtx, log)
              | (Returns (Err err), log) =>
                  (Returns (Ok {| Content :=
                                    [TextContent ("Error invoking method: "
                                                  +:+ SanitizeError err)];
                                  IsError := true |}),
                   sessionCtx, log)
              | (Returns (Ok result), log) =>
                  (Returns (Ok {| Content := [TextContent result];
                                  IsError := false |}),
                   UpdateLastAccessed (IncrementCallCount sessionCtx) now, log)
              end
          end
      | _ => (Panics "interface conversion: not a string", sessionCtx, [])
      end
  end.

(** A run of [tools/call] requests of one session. *)
Fixpoint handleToolsCalls (h : Handler)
    (requests : list (Z * gmap string JSON)) (sessionCtx : Context)
  : list (execution (result ToolCallResult)) * Context * list Event :=
  match requests with
  | [] => ([], sessionCtx, [])
  | (now, params) :: rest =>
      let '(r, sessionCtx, log) := handleToolsCall h now params sessionCtx in
      let '(rs, sessionCtx, logs) := handleToolsCalls h rest sessionCtx in
      (r :: rs, sessionCtx, log ++ logs)
  end.
End handler.
End Server.

(** ** Notions used to state the properties of the projector *)

Module Projection.
Import Descriptors Builder.

(** A schema has a reference when an object with a [$ref] key occurs in
    it. *)
Fixpoint hasRef (value : JSON) : bool :=
  match value with
  | JObject m =>
      bool_decide (is_Some (m !! "$ref"))
      || map_fold (λ _ member found, found || hasRef member) false m
  | JArray l => existsb hasRef l
  | _ => false
  end.

(** The kinds [extractFieldTypeSchemaInternal] has a case for: all but
    groups. *)
Definition supportedKind (kind : FieldKind) : bool :=
  match kind with
  | GroupKind _ => false
  | _ => true
  end.

(** The kind whose schema the field carries: of the map value for a map,
    of the field itself otherwise. *)
Definition carriedKind (field : FieldDesc) : FieldKind :=
  match fd_Shape field with
  | IsMap valueKind => valueKind
  | _ => fd_Kind field
  end.

Definition supported (field : FieldDesc) : bool :=
  supportedKind (carriedKind field).

(** The message a field makes the projector descend into, if any. *)
Definition expandedMessage (field : FieldDesc) : option string :=
  match carriedKind field with
  | MessageKind target =>
      match wellKnownSchema target with
      | Some _ => None
      | None => Some target
      end
  | _ => None
  end.

(** [refersTo reg a b]: a field of message [a] descends into message [b].
    A cycle of the message graph is a path of this relation from a
    message to itself. *)
Definition refersTo (reg : gmap string MessageDesc) (a b : string) : Prop :=
  ∃ field, field ∈ Fields (descriptorOf reg a) ∧ expandedMessage field = Some b.

(** [messageEdge reg a b]: a field of message [a] has the message type
    [b], well-known or not: the edges of the message graph. *)
Definition messageEdge (reg : gmap string MessageDesc) (a b : string) : Prop :=
  ∃ field, field ∈ Fields (descriptorOf reg a) ∧ carriedKind field = MessageKind b.

(** A node reaches a cycle of a graph when a path leads from it to a node
    that has a path to itself; a node of a cycle reaches it by the empty
    path. *)
Definition reachesCycle (edge : relation string) (a : string) : Prop :=
  ∃ b, rtc edge a b ∧ tc edge b b.

(** The value found in a schema along a path of object keys. *)
Fixpoint valueAt (value : JSON) (path : list string) : option JSON :=
  match path with
  | [] => Some value
  | key :: rest =>
      match value with
      | JObject m =>
          match m !! key with
          | Some inner => valueAt inner rest
          | None => None
          end
      | _ => None
      end
  end.

(** Where the schema of a message holds the schema of the message type of
    one of its fields: under [properties] and the field name, and then as it
    is, under [items], or under [patternProperties] and its one pattern. *)
Definition fieldPath (field : FieldDesc) : list string :=
  "properties" :: fd_Name field ::
  match fd_Shape field with
  | Singular => []
  | IsList => ["items"]
  | IsMap _ => ["patternProperties"; ".*"]
  end.

(** [descends reg a fields b]: starting in message [a], each of the fields
    is a field of the message reached so far and leads the projector into
    the next message; the last one leads into [b]. *)
Fixpoint descends (reg : gmap string MessageDesc) (a : string)
    (fields : list FieldDesc) (b : string) : Prop :=
  match fields with
  | [] => a = b
  | field :: rest =>
      field ∈ Fields (descriptorOf reg a)
      ∧ ∃ c, expandedMessage field = Some c ∧ descends reg c rest b
  end.

(** The messages that are expanded along the way: [a] and the message of
    every field but the last. *)
Fixpoint entered (a : string) (fields : list FieldDesc) : list string :=
  match fields with
  | [] => []
  | field :: rest =>
      a :: match expandedMessage field with
           | Some c => entered c rest
           | None => []
           end
  end.

(** Protobuf's rule that the fields and the oneofs of a message have
    pairwise different names. *)
Definition uniqueNames (msgDesc : MessageDesc) : Prop :=
  NoDup ((fd_Name <$> Fields msgDesc) ++ (oo_Name <$> Oneofs msgDesc)).

#[global] Instance uniqueNames_dec (msgDesc : MessageDesc) :
  Decision (uniqueNames msgDesc).
Proof. unfold uniqueNames. apply _. Defined.

Section results.
Variable extractMessage : string → gset string → outcome JSON * gset string.
Variable visited : gset string.

(** The schema of a field at the given [visited] set. *)
Definition schemaAt (field : FieldDesc) : outcome JSON :=
  (extractFieldSchemaInternal extractMessage field visited).1.

(** The alternatives of a oneof: one per member whose schema is made. *)
Definition optionsOf (members : list FieldDesc) : list JSON :=
  flat_map (λ field,
             match schemaAt field with
             | Done fieldSchema => [oneofOption (fd_Name field) fieldSchema]
             | _ => []
             end) members.
End results.
End Projection.

(** ** Concrete data for the examples *)

Module Examples.
Import Descriptors Types.

(** Case tables that leave non-ASCII strings as they are; the examples
    below use ASCII strings only, so none of them consults the tables. *)
Definition asciiTables : UnicodeTables := {| mapToLower := λ s, s |}.

Definition method (service name : string) (clientStreaming serverStreaming : bool)
  : MethodInfo :=
  {| Name := name;
     FullName := service +:+ "." +:+ name;
     ToolName := GenerateToolName (H := asciiTables)
                   {| Name := name; FullName := ""; ToolName := "";
                      ServiceName := service; ServiceDescription := "";
                      Description := ""; InputType := ""; OutputType := "";
                      InputDescriptor := ""; OutputDescriptor := "";
                      IsClientStreaming := false; IsServerStreaming := false |};
     ServiceName := service;
     ServiceDescription := "";
     Description := "";
     InputType := ".hello.HelloRequest";
     OutputType := ".hello.HelloReply";
     InputDescriptor := "hello.HelloRequest";
     OutputDescriptor := "hello.HelloReply";
     IsClientStreaming := clientStreaming;
     IsServerStreaming := serverStreaming |}.

Definition sayHello : MethodInfo := method "hello.HelloService" "SayHello" false false.

(** A service name with a byte outside [[A-Za-z0-9_.]]. *)
Definition dashed : MethodInfo := method "my-svc.Greeter" "Get" false false.

(** The policy and the caller headers of the header-forwarding scenario. *)
Definition scenarioPolicy : Headers.HeaderForwardingConfig :=
  {| Headers.Enabled := true;
     Headers.AllowedHeaders := ["authorization"; "x-trace-id"];
     Headers.BlockedHeaders := ["cookie"];
     Headers.ForwardAll := false;
     Headers.CaseSensitive := false |}.

Definition scenarioHeaders : gmap string string :=
  {[ "Authorization" := "Bearer x"; "X-Trace-Id" := "t";
     "Cookie" := "c=1"; "X-Other" := "o" ]}.

(** The policy of the test [Case_insensitive_matching] of
    [headers/filter_test.go]: the entries of the allow list are not in
    lower case. *)
Definition mixedCasePolicy : Headers.HeaderForwardingConfig :=
  {| Headers.Enabled := true;
     Headers.AllowedHeaders := ["Authorization"; "X-Trace-ID"];
     Headers.BlockedHeaders := [];
     Headers.ForwardAll := false;
     Headers.CaseSensitive := false |}.

Definition disabledPolicy : Headers.HeaderForwardingConfig :=
  {| Headers.Enabled := false;
     Headers.AllowedHeaders := ["authorization"];
     Headers.BlockedHeaders := [];
     Headers.ForwardAll := true;
     Headers.CaseSensitive := false |}.

(** Two methods of different services whose tool names collide. *)
Definition collisionFirst : MethodInfo := method "a.b" "c" false false.
Definition collisionSecond : MethodInfo := method "a" "b_c" false false.

(** A file with a unary and a server-streaming method. *)
Definition chatFile : Reflection.FileDescriptorProto :=
  {| Reflection.fdp_Name := "chat.proto";
     Reflection.fdp_Package := "chat";
     Reflection.fdp_Service :=
       [ {| Reflection.sdp_Name := "ChatService";
            Reflection.sdp_Method :=
              [ {| Reflection.mdp_Name := "Send";
                   Reflection.mdp_InputType := ".chat.Message";
                   Reflection.mdp_OutputType := ".chat.Ack";
                   Reflection.mdp_ClientStreaming := false;
                   Reflection.mdp_ServerStreaming := false |};
                {| Reflection.mdp_Name := "Subscribe";
                   Reflection.mdp_InputType := ".chat.Topic";
                   Reflection.mdp_OutputType := ".chat.Message";
                   Reflection.mdp_ClientStreaming := false;
                   Reflection.mdp_ServerStreaming := true |} ] |} ];
     Reflection.fdp_Messages := {[ "chat.Message"; "chat.Ack"; "chat.Topic" ]} |}.

Definition chatMethods : list MethodInfo :=
  Reflection.extractMethodsFromFileDescriptor (H := asciiTables)
    chatFile ["chat.ChatService"].

Definition reflectionOnly (methods : list MethodInfo) : Discovery.Sources :=
  {| Discovery.discoverFromFileDescriptor := Err "no descriptor set";
     Discovery.discoverFromReflection := Ok (Some methods) |}.

Definition connected : Discovery.serviceDiscoverer :=
  {| Discovery.reflectionClient := true;
     Discovery.descriptorEnabled := false;
     Discovery.descriptorPath := "";
     Discovery.tools := ∅ |}.

(** An upstream that echoes the request, with encoders that fail on the
    text [bad] only; message contents are texts. *)
Definition echoWorld : World :=
  {| MessageFields := string;
     noFields := "";
     protojson_Unmarshal := λ json _,
       if String.eqb json "bad" then Err "syntax error" else Ok json;
     conn_Invoke := λ _ _ inputMsg _, Ok inputMsg.2;
     protojson_Marshal := λ msg, Ok msg.2;
     json_Marshal := λ _, Ok "{}";
     SanitizeError := λ err, err |}.



(** A gateway that has discovered [sayHello], a session that has used up
    the rate limit of its window, and a valid [tools/call] request. *)
Definition helloDiscoverer : Discovery.serviceDiscoverer :=
  (Discovery.DiscoverServices connected (reflectionOnly [sayHello])).2.

Definition exhaustedSession : Session.Context :=
  {| Session.ID := "s1";
     Session.Headers := scenarioHeaders;
     Session.CreatedAt := 0;
     Session.LastAccessed := 0;
     Session.CallCount := 0;
     Session.UserAgent := "";
     Session.RemoteAddr := "";
     Session.RequestCount := Session.requestsPerMinute Session.NewManager;
     Session.WindowStart := 0;
     Session.IsBlocked := false |}.

Definition helloHandler : Server.Handler :=
  {| Server.validator := Validation.NewValidator;
     Server.serviceDiscoverer := helloDiscoverer;
     Server.sessionManager := Session.store Session.NewManager "s1" exhaustedSession;
     Server.headerFilter := scenarioPolicy |}.

(** The same session at the start of a window, and a manager that holds
    it. *)
Definition freshSession : Session.Context :=
  Session.withWindow exhaustedSession 0 0.

Definition freshManager : Session.Manager :=
  Session.store Session.NewManager "s1" freshSession.

(** A gateway that has discovered the chat service. *)
Definition chatDiscoverer : Discovery.serviceDiscoverer :=
  (Discovery.DiscoverServices connected (reflectionOnly chatMethods)).2.

Definition helloCall : gmap string JSON :=
  {[ "name" := JString "hello_helloservice_sayhello";
     "arguments" := JObject ∅ ]}.

(** A recursive message and a message with two siblings of that type:
    [Node { id; repeated Node children }] and [Pair { Node left; Node
    right }]. *)
Definition field (name : string) (shape : FieldShape) (kind : FieldKind)
    (oneof : option nat) : FieldDesc :=
  {| fd_Name := name; fd_Location := noLocation; fd_Shape := shape;
     fd_Kind := kind; HasOptionalKeyword := false;
     HasPresence := bool_decide (is_Some oneof); ContainingOneof := oneof |}.

Definition nodeChildren : FieldDesc :=
  field "children" IsList (MessageKind "tree.Node") None.

Definition nodeMessage : MessageDesc :=
  {| msg_Location := noLocation;
     Fields := [field "id" Singular StringKind None; nodeChildren];
     Oneofs := [] |}.

Definition pairLeft : FieldDesc :=
  field "left" Singular (MessageKind "tree.Node") None.
Definition pairRight : FieldDesc :=
  field "right" Singular (MessageKind "tree.Node") None.

Definition pairMessage : MessageDesc :=
  {| msg_Location := noLocation;
     Fields := [pairLeft; pairRight];
     Oneofs := [] |}.

Definition treeRegistry : gmap string MessageDesc :=
  {[ "tree.Node" := nodeMessage; "tree.Pair" := pairMessage ]}.

(** A message with a oneof:
    [Document { title; oneof metadata { simple_summary; wrapper } }]. *)
Definition simpleSummary : FieldDesc :=
  field "simple_summary" Singular StringKind (Some 0%nat).

Definition documentMessage : MessageDesc :=
  {| msg_Location := noLocation;
     Fields := [field "title" Singular StringKind None;
                simpleSummary;
                field "wrapper" Singular (MessageKind "tree.Node") (Some 0%nat)];
     Oneofs := [ {| oo_Name := "metadata"; oo_Location := noLocation |} ] |}.

Definition documentRegistry : gmap string MessageDesc :=
  {[ "tree.Node" := nodeMessage; "doc.Document" := documentMessage ]}.

(** The well-known [Struct], [Value] and [ListValue], which refer to each
    other, and a message with a [Struct] field. *)
Definition nullValue : EnumDesc :=
  {| enum_Values := [ {| ev_Name := "NULL_VALUE"; ev_Location := noLocation |} ];
     enum_Location := noLocation |}.

Definition structFields : FieldDesc :=
  field "fields" (IsMap (MessageKind "google.protobuf.Value"))
    (MessageKind "google.protobuf.Struct.FieldsEntry") None.

Definition structMessage : MessageDesc :=
  {| msg_Location := noLocation; Fields := [structFields]; Oneofs := [] |}.

Definition valueStruct : FieldDesc :=
  field "struct_value" Singular (MessageKind "google.protobuf.Struct") (Some 0%nat).

Definition valueMessage : MessageDesc :=
  {| msg_Location := noLocation;
     Fields := [field "null_value" Singular (EnumKind nullValue) (Some 0%nat);
                field "number_value" Singular DoubleKind (Some 0%nat);
                field "string_value" Singular StringKind (Some 0%nat);
                field "bool_value" Singular BoolKind (Some 0%nat);
                valueStruct;
                field "list_value" Singular
                  (MessageKind "google.protobuf.ListValue") (Some 0%nat)];
     Oneofs := [ {| oo_Name := "kind"; oo_Location := noLocation |} ] |}.

Definition listValueMessage : MessageDesc :=
  {| msg_Location := noLocation;
     Fields := [field "values" IsList (MessageKind "google.protobuf.Value") None];
     Oneofs := [] |}.

Definition settingsData : FieldDesc :=
  field "data" Singular (MessageKind "google.protobuf.Struct") None.

Definition settingsMessage : MessageDesc :=
  {| msg_Location := noLocation;
     Fields := [field "name" Singular StringKind None; settingsData];
     Oneofs := [] |}.

Definition structRegistry : gmap string MessageDesc :=
  {[ "api.Settings" := settingsMessage;
     "google.protobuf.Struct" := structMessage;
     "google.protobuf.Value" := valueMessage;
     "google.protobuf.ListValue" := listValueMessage ]}.

Definition schemaPath (schema : outcome JSON) (path : list string) : option JSON :=
  match schema with
  | Done value => Projection.valueAt value path
  | _ => None
  end.

End Examples.

(** * Properties *)

(** ** Tool names *)

Section tool_names.
Import GoStrings CharClass Types.

Lemma forallb_app (p : ascii → bool) (s t : string) :
  forallb p (s +:+ t) = forallb p s && forallb p t.
Proof.
  induction s as [|c s IH]; simpl; [done|].
  rewrite IH. by rewrite andb_assoc.
Qed.

Lemma validNameChar_ascii (c : ascii) :
  validNameChar c = true → (byte c <? RuneSelf) = true.
Proof.
  destruct c as [[] [] [] [] [] [] [] []]; vm_compute; congruence.
Qed.

Lemma lowerByte_toolNameChar (c : ascii) :
  validNameChar c = true → toolNameChar (lowerByte c) = true.
Proof.
  destruct c as [[] [] [] [] [] [] [] []]; vm_compute; congruence.
Qed.

Lemma validName_isASCII (s : string) :
  forallb validNameChar s = true → isASCII s = true.
Proof.
  induction s as [|c s IH]; simpl; [done|].
  intros [Hc Hs]%andb_prop.
  by rewrite (validNameChar_ascii _ Hc), IH.
Qed.

Lemma lowerBytes_toolName (s : string) :
  forallb validNameChar s = true → forallb toolNameChar (lowerBytes s) = true.
Proof.
  induction s as [|c s IH]; simpl; [done|].
  intros [Hc Hs]%andb_prop.
  by rewrite (lowerByte_toolNameChar _ Hc), IH.
Qed.

Lemma ReplaceAll1_validName (s : string) :
  forallb validNameChar s = true →
  forallb validNameChar (ReplaceAll1 s "."%char "_") = true.
Proof.
  induction s as [|c s IH]; simpl; [done|].
  intros [Hc Hs]%andb_prop.
  destruct (Ascii.eqb c ".").
  - change (forallb validNameChar (String "_" (ReplaceAll1 s "." "_")) = true).
    simpl forallb. by rewrite IH.
  - simpl forallb. by rewrite Hc, IH.
Qed.

Lemma ToLower_toolName `{UnicodeTables} (s : string) :
  forallb validNameChar s = true → forallb toolNameChar (ToLower s) = true.
Proof.
  intros Hs. unfold ToLower.
  rewrite (validName_isASCII _ Hs). by apply lowerBytes_toolName.
Qed.

Lemma matchesPlus_app_underscore (s t : string) :
  forallb toolNameChar s = true → forallb toolNameChar t = true →
  matchesPlus toolNameChar (s +:+ "_" +:+ t) = true.
Proof.
  intros Hs Ht.
  assert (forallb toolNameChar (s +:+ "_" +:+ t) = true) as Hall.
  { rewrite !forallb_app, Hs, Ht. reflexivity. }
  destruct s; simpl in *; done.
Qed.

(** C1, as amended.  The tool name of every method is the lower-cased
    service name with its dots replaced by underscores, an underscore, and
    the lower-cased method name; it matches [[a-z0-9_.]+] when the service
    and method names are made of ASCII letters, digits, ['_'] and ['.'],
    as protobuf names are. *)
Theorem GenerateToolName_spec `{UnicodeTables} (m : MethodInfo) :
  GenerateToolName m
    = ToLower (ReplaceAll1 (ServiceName m) "."%char "_") +:+ "_" +:+ ToLower (Name m)
  ∧ (forallb validNameChar (ServiceName m) = true →
     forallb validNameChar (Name m) = true →
     matchesPlus toolNameChar (GenerateToolName m) = true).
Proof.
  split; [reflexivity|].
  intros HS HN. unfold GenerateToolName.
  apply matchesPlus_app_underscore.
  - by apply ToLower_toolName, ReplaceAll1_validName.
  - by apply ToLower_toolName.
Qed.

Lemma GenerateToolName_spec_witness :
  forallb validNameChar (ServiceName Examples.sayHello) = true
  ∧ forallb validNameChar (Name Examples.sayHello) = true
  ∧ GenerateToolName (H := Examples.asciiTables) Examples.sayHello
    = "hello_helloservice_sayhello"
  ∧ matchesPlus toolNameChar
      (GenerateToolName (H := Examples.asciiTables) Examples.sayHello) = true.
Proof.
  split; [reflexivity|]. split; [reflexivity|]. split; [reflexivity|].
  apply (GenerateToolName_spec (H := Examples.asciiTables) Examples.sayHello);
    reflexivity.
Defined.

(** C1 as stated fails: no byte of the names is checked, so a name with a
    byte outside the class yields a tool name outside it. *)
Lemma GenerateToolName_class_counterexample :
  ¬ (∀ (U : UnicodeTables) (m : MethodInfo),
       GenerateToolName m
         = ToLower (ReplaceAll1 (ServiceName m) "."%char "_")
           +:+ "_" +:+ ToLower (Name m)
       ∧ matchesPlus toolNameChar (GenerateToolName m) = true).
Proof.
  intros Hclaim.
  destruct (Hclaim Examples.asciiTables Examples.dashed) as [_ Hclass].
  vm_compute in Hclass. discriminate.
Qed.
End tool_names.

(** ** The header filter *)

Section header_filter.
Import GoStrings Headers.
Context `{UnicodeTables}.
Variable config : HeaderForwardingConfig.

Lemma normalize_folds (entry name : string) :
  normalize config entry = normalize config name
  ↔ if CaseSensitive config then entry = name
    else ToLower entry = ToLower name.
Proof. unfold normalize. by destruct (CaseSensitive config). Qed.

Lemma matchesAny_listed (name : string) (entries : list string) :
  matchesAny config (normalize config name) entries = true
  ↔ listed config name entries.
Proof.
  unfold listed. induction entries as [|entry rest IH]; simpl.
  - split; [done|]. intros (? & []%elem_of_nil & _).
  - destruct (String.eqb_spec (normalize config name) (normalize config entry))
      as [Heq|Hne].
    + split; [|done]. intros _. exists entry. split; [left|].
      by apply normalize_folds.
    + rewrite IH. split.
      * intros (e & He & Hn). exists e. split; [by right|done].
      * intros (e & [->|He]%elem_of_cons & Hn); [|eauto].
        apply normalize_folds in Hn. congruence.
Qed.

Lemma matchesAny_not_listed (name : string) (entries : list string) :
  matchesAny config (normalize config name) entries = false
  ↔ ¬ listed config name entries.
Proof. rewrite <- matchesAny_listed. by destruct (matchesAny _ _ _). Qed.

(** The loop of [FilterHeaders] keeps exactly the entries that
    [ShouldForward] accepts, each under its own key. *)
Lemma FilterHeaders_lookup (headers : gmap string string) (name : string) :
  FilterHeaders config headers !! name
    = if ShouldForward config name then headers !! name else None.
Proof.
  unfold FilterHeaders.
  destruct (negb (Enabled config)) eqn:Hen.
  { unfold ShouldForward. rewrite Hen. by rewrite lookup_empty. }
  revert name.
  apply (map_fold_weak_ind (λ (filtered headers : gmap string string),
    ∀ name, filtered !! name
            = if ShouldForward config name then headers !! name else None)).
  - intros name. rewrite !lookup_empty. by destruct (ShouldForward _ _).
  - intros i x m r Hi IH name.
    destruct (decide (i = name)) as [->|Hne].
    + destruct (ShouldForward config name) eqn:Hsf.
      * by rewrite !lookup_insert_eq.
      * by rewrite IH, Hsf.
    + destruct (ShouldForward config i);
        rewrite ?lookup_insert_ne by done; apply IH.
Qed.

(** The two readings of "in the list" agree on a list whose entries are
    in folded form already, and on every list of a case-sensitive
    policy. *)
Lemma listed_inList (name : string) (entries : list string) :
  CaseSensitive config = true ∨ Forall (λ entry, ToLower entry = entry) entries →
  listed config name entries ↔ inList config name entries.
Proof.
  unfold listed, inList. intros Hfolded.
  destruct (CaseSensitive config).
  - split; [by intros (entry & Hin & ->)|]. intros Hin. by exists name.
  - destruct Hfolded as [?|Hfolded]; [done|].
    rewrite Forall_forall in Hfolded. split.
    + intros (entry & Hin & Hsame). rewrite <- Hsame.
      by rewrite (Hfolded entry Hin).
    + intros Hin. exists (ToLower name). split; [done|]. by apply Hfolded.
Qed.

(** C5, as amended.  Under an enabled policy, with [listed] for "in the
    list" (the entries are folded as the name is): a header listed in
    [BlockedHeaders] is never in the output, allowed or not; with
    [ForwardAll] every other header is kept; without it exactly the headers
    that are not blocked and are listed in [AllowedHeaders] are kept; and
    what is kept is the caller's own entry, under the caller's spelling and
    with its value.  On lists whose entries are in folded form, and on
    every list of a case-sensitive policy, [listed] is the membership of
    the folded name that the claim words. *)
Theorem FilterHeaders_policy (Hen : Enabled config = true)
    (headers : gmap string string) (name value : string) :
  (listed config name (BlockedHeaders config) →
     FilterHeaders config headers !! name = None)
  ∧ (ForwardAll config = true → ¬ listed config name (BlockedHeaders config) →
     FilterHeaders config headers !! name = headers !! name)
  ∧ (ForwardAll config = false →
     (FilterHeaders config headers !! name = Some value
      ↔ headers !! name = Some value
        ∧ ¬ listed config name (BlockedHeaders config)
        ∧ listed config name (AllowedHeaders config)))
  ∧ (FilterHeaders config headers !! name = Some value →
     headers !! name = Some value)
  ∧ (∀ entries,
       CaseSensitive config = true
       ∨ Forall (λ entry, ToLower entry = entry) entries →
       listed config name entries
       ↔ (if CaseSensitive config then name else ToLower name) ∈ entries).
Proof.
  assert (∀ entries,
            CaseSensitive config = true
            ∨ Forall (λ entry, ToLower entry = entry) entries →
            listed config name entries
            ↔ (if CaseSensitive config then name else ToLower name) ∈ entries)
    as Hreadings.
  { intros entries Hfolded. by apply listed_inList. }
  rewrite FilterHeaders_lookup. unfold ShouldForward. rewrite Hen. simpl.
  destruct (matchesAny config (normalize config name) (BlockedHeaders config))
    eqn:Hblocked.
  - apply matchesAny_listed in Hblocked.
    repeat split; try done; try apply Hreadings; naive_solver.
  - apply matchesAny_not_listed in Hblocked.
    destruct (ForwardAll config) eqn:Hall.
    + repeat split; try done; try apply Hreadings; naive_solver.
    + destruct (matchesAny config (normalize config name) (AllowedHeaders config))
        eqn:Hallowed.
      * apply matchesAny_listed in Hallowed.
        repeat split; try done; try apply Hreadings; naive_solver.
      * apply matchesAny_not_listed in Hallowed.
        repeat split; try done; try apply Hreadings; naive_solver.
Qed.

(** C6.  Filtering twice is filtering once, and the filtered map is a
    key-wise part of the input: each of its entries is an entry of the
    input with the same value. *)
Theorem FilterHeaders_idempotent_subset (headers : gmap string string) :
  FilterHeaders config (FilterHeaders config headers) = FilterHeaders config headers
  ∧ FilterHeaders config headers ⊆ headers
  ∧ ∀ name value, FilterHeaders config headers !! name = Some value →
                  headers !! name = Some value.
Proof.
  assert (∀ name value, FilterHeaders config headers !! name = Some value →
                        headers !! name = Some value) as Hsub.
  { intros name value. rewrite FilterHeaders_lookup.
    by destruct (ShouldForward config name). }
  split; [|split; [|done]].
  - apply map_eq. intros name. rewrite !FilterHeaders_lookup.
    by destruct (ShouldForward config name).
  - by apply map_subseteq_spec.
Qed.

(** C10.  A disabled policy forwards nothing, whatever its lists and
    flags. *)
Theorem FilterHeaders_disabled (Hdis : Enabled config = false)
    (headers : gmap string string) :
  FilterHeaders config headers = ∅
  ∧ ∀ name, ShouldForward config name = false.
Proof.
  unfold FilterHeaders, ShouldForward. by rewrite Hdis.
Qed.
End header_filter.

(** The header-forwarding scenario: of the four caller headers, the two
    allowed ones reach the upstream, under the caller's spelling. *)
Example FilterHeaders_scenario :
  Headers.FilterHeaders (H := Examples.asciiTables)
    Examples.scenarioPolicy Examples.scenarioHeaders
  = {[ "Authorization" := "Bearer x"; "X-Trace-Id" := "t" ]}.
Proof. vm_compute. reflexivity. Qed.

Lemma FilterHeaders_policy_witness :
  Headers.Enabled Examples.scenarioPolicy = true
  ∧ Headers.ForwardAll Examples.scenarioPolicy = false
  ∧ Headers.listed (H := Examples.asciiTables) Examples.scenarioPolicy "Cookie"
      (Headers.BlockedHeaders Examples.scenarioPolicy)
  ∧ Headers.listed (H := Examples.asciiTables) Examples.scenarioPolicy
      "Authorization" (Headers.AllowedHeaders Examples.scenarioPolicy)
  ∧ Headers.FilterHeaders (H := Examples.asciiTables)
      Examples.scenarioPolicy Examples.scenarioHeaders !! "Cookie" = None
  ∧ Headers.FilterHeaders (H := Examples.asciiTables)
      Examples.scenarioPolicy Examples.scenarioHeaders !! "Authorization"
    = Some "Bearer x".
Proof.
  assert (Headers.listed (H := Examples.asciiTables) Examples.scenarioPolicy
            "Cookie" (Headers.BlockedHeaders Examples.scenarioPolicy)) as Hcookie.
  { exists "cookie". split; [left|reflexivity]. }
  assert (Headers.listed (H := Examples.asciiTables) Examples.scenarioPolicy
            "Authorization" (Headers.AllowedHeaders Examples.scenarioPolicy))
    as Hauthorization.
  { exists "authorization". split; [left|reflexivity]. }
  assert (¬ Headers.listed (H := Examples.asciiTables) Examples.scenarioPolicy
              "Authorization" (Headers.BlockedHeaders Examples.scenarioPolicy))
    as Hfree.
  { intros (entry & Hin & Hsame).
    apply list_elem_of_singleton in Hin. subst entry. discriminate Hsame. }
  split; [reflexivity|]. split; [reflexivity|].
  split; [exact Hcookie|]. split; [exact Hauthorization|].
  pose proof (FilterHeaders_policy (H := Examples.asciiTables)
                Examples.scenarioPolicy eq_refl Examples.scenarioHeaders) as Hpolicy.
  split.
  - exact (proj1 (Hpolicy "Cookie" "c=1") Hcookie).
  - apply (proj1 (proj2 (proj2 (Hpolicy "Authorization" "Bearer x"))) eq_refl).
    split; [reflexivity|]. split; [exact Hfree|exact Hauthorization].
Defined.

(** C5 as stated fails on a list with an entry that is not in lower case:
    the code folds the entries of the lists as well as the name.  With the
    allow list of the repository's test [Case_insensitive_matching] the
    header [authorization] is forwarded, and its folded name is not in the
    list. *)
Lemma FilterHeaders_unfolded_entry_counterexample :
  ¬ (∀ (U : UnicodeTables) (config : Headers.HeaderForwardingConfig)
       (headers : gmap string string) (name value : string),
       Headers.Enabled config = true →
       Headers.ForwardAll config = false →
       Headers.FilterHeaders config headers !! name = Some value →
       Headers.inList config name (Headers.AllowedHeaders config)).
Proof.
  intros Hclaim.
  specialize (Hclaim Examples.asciiTables Examples.mixedCasePolicy
                {[ "authorization" := "Bearer x" ]} "authorization" "Bearer x"
                eq_refl eq_refl eq_refl).
  unfold Headers.inList in Hclaim. simpl in Hclaim.
  apply elem_of_cons in Hclaim as [Hfirst|Hrest]; [discriminate Hfirst|].
  apply list_elem_of_singleton in Hrest. discriminate Hrest.
Qed.

Lemma FilterHeaders_idempotent_subset_witness :
  Headers.FilterHeaders (H := Examples.asciiTables) Examples.scenarioPolicy
    (Headers.FilterHeaders (H := Examples.asciiTables)
       Examples.scenarioPolicy Examples.scenarioHeaders)
  = Headers.FilterHeaders (H := Examples.asciiTables)
      Examples.scenarioPolicy Examples.scenarioHeaders
  ∧ Headers.FilterHeaders (H := Examples.asciiTables)
      Examples.scenarioPolicy Examples.scenarioHeaders ⊆ Examples.scenarioHeaders.
Proof.
  pose proof (FilterHeaders_idempotent_subset (H := Examples.asciiTables)
                Examples.scenarioPolicy Examples.scenarioHeaders)
    as (Hidempotent & Hsubset & _).
  by split.
Defined.

Lemma FilterHeaders_disabled_witness :
  Headers.Enabled Examples.disabledPolicy = false
  ∧ Headers.FilterHeaders (H := Examples.asciiTables)
      Examples.disabledPolicy Examples.scenarioHeaders = ∅.
Proof.
  split; [reflexivity|].
  apply (FilterHeaders_disabled (H := Examples.asciiTables)
           Examples.disabledPolicy eq_refl Examples.scenarioHeaders).
Defined.

(** ** Discovery: the published tool map *)

Section discovery.
Import Types Discovery.

Lemma toolMapOf_snoc (methods : list MethodInfo) (method : MethodInfo) :
  toolMapOf (Some (methods ++ [method]))
  = <[ToolName method := method]> (toolMapOf (Some methods)).
Proof. unfold toolMapOf. simpl. by rewrite fold_left_app. Qed.

(** The map holds, under each tool name, the last method of that name. *)
Lemma toolMapOf_lookup (methods : slice MethodInfo) (name : string) :
  toolMapOf methods !! name
  = last (filter (λ method, ToolName method = name) (default [] methods)).
Proof.
  destruct methods as [methods|]; [|done]. simpl.
  induction methods as [|method methods IH] using rev_ind; [done|].
  rewrite toolMapOf_snoc, filter_app.
  destruct (decide (ToolName method = name)) as [Heq|Hne].
  - rewrite Heq, lookup_insert_eq.
    rewrite filter_cons_True, filter_nil by done. by rewrite last_snoc.
  - rewrite lookup_insert_ne by done.
    rewrite filter_cons_False, filter_nil by done. by rewrite app_nil_r.
Qed.

(** C3, as amended.  Discovery fails only when the gateway is not
    connected or when reflection fails; methods with the same tool name
    raise no error, and the published map holds under each tool name the
    last discovered method of that name: a later method replaces an
    earlier one. *)
Theorem DiscoverServices_last_wins (d : serviceDiscoverer) (sources : Sources) :
  match DiscoverServices d sources with
  | (None, d') =>
      ∃ methods,
        (discoverFromFileDescriptor sources = Ok methods
         ∨ discoverFromReflection sources = Ok methods)
        ∧ ∀ name, tools d' !! name
                  = last (filter (λ method, ToolName method = name)
                                 (default [] methods))
  | (Some _, d') =>
      d' = d
      ∧ (reflectionClient d = false
         ∨ ∃ err, discoverFromReflection sources = Err err)
  end.
Proof.
  unfold DiscoverServices.
  destruct (reflectionClient d); simpl; [|by auto].
  destruct (descriptorEnabled d && Builder.nonEmpty (descriptorPath d)).
  - destruct (discoverFromFileDescriptor sources) as [[fromFile|]|err] eqn:Hfd.
    + exists (Some fromFile). split; [by left|]. intros name. simpl.
      apply (toolMapOf_lookup (Some fromFile)).
    + destruct (discoverFromReflection sources) as [methods|err] eqn:Hrefl.
      * exists methods. split; [by right|]. intros. apply toolMapOf_lookup.
      * eauto.
    + destruct (discoverFromReflection sources) as [methods|err'] eqn:Hrefl.
      * exists methods. split; [by right|]. intros. apply toolMapOf_lookup.
      * eauto.
  - destruct (discoverFromReflection sources) as [methods|err] eqn:Hrefl.
    + exists methods. split; [by right|]. intros. apply toolMapOf_lookup.
    + eauto.
Qed.

Lemma DiscoverServices_last_wins_witness :
  ∃ d', DiscoverServices Examples.connected
          (Examples.reflectionOnly [Examples.collisionFirst; Examples.collisionSecond])
        = (None, d')
        ∧ tools d' !! "a_b_c" = Some Examples.collisionSecond.
Proof.
  pose proof (DiscoverServices_last_wins Examples.connected
                (Examples.reflectionOnly
                   [Examples.collisionFirst; Examples.collisionSecond])) as Hlast.
  destruct (DiscoverServices _ _) as [[err|] d'] eqn:Hrun;
    [vm_compute in Hrun; discriminate|].
  exists d'. split; [done|].
  destruct Hlast as (methods & [Hfile|Hreflection] & Hlookup);
    [discriminate|].
  injection Hreflection as <-. by rewrite Hlookup.
Defined.

(** C3 as stated fails: of two methods with one tool name the second is
    published, the first is lost, and discovery reports no error. *)
Lemma DiscoverServices_collision_counterexample :
  ¬ (∀ (d : serviceDiscoverer) (first second : MethodInfo),
       reflectionClient d = true →
       ToolName first = ToolName second →
       first ≠ second →
       let r := DiscoverServices d (Examples.reflectionOnly [first; second]) in
       (∃ err, r.1 = Some err)
       ∧ tools r.2 !! ToolName second ≠ Some second).
Proof.
  intros Hclaim.
  destruct (Hclaim Examples.connected Examples.collisionFirst
              Examples.collisionSecond) as [[err Herr] _];
    [reflexivity|reflexivity|discriminate|].
  vm_compute in Herr. discriminate.
Qed.

(** The colliding methods, as the code treats them. *)
Example DiscoverServices_collision :
  let r := DiscoverServices Examples.connected
             (Examples.reflectionOnly
                [Examples.collisionFirst; Examples.collisionSecond]) in
  ToolName Examples.collisionFirst = "a_b_c"
  ∧ ToolName Examples.collisionSecond = "a_b_c"
  ∧ r.1 = None
  ∧ tools r.2 !! "a_b_c" = Some Examples.collisionSecond.
Proof. vm_compute. auto. Qed.

(** C2 as stated fails: discovery publishes a server-streaming method of
    the upstream in the tool map. *)
Lemma DiscoverServices_streaming_counterexample :
  ¬ (∀ (d d' : serviceDiscoverer) (sources : Sources) (name : string)
       (method : MethodInfo),
       DiscoverServices d sources = (None, d') →
       tools d' !! name = Some method →
       IsClientStreaming method = false ∧ IsServerStreaming method = false).
Proof.
  intros Hclaim.
  pose (sources := Examples.reflectionOnly Examples.chatMethods).
  pose (r := DiscoverServices Examples.connected sources).
  destruct (tools r.2 !! "chat_chatservice_subscribe") as [method|] eqn:Hm;
    [|vm_compute in Hm; discriminate].
  destruct (Hclaim Examples.connected r.2 sources
              "chat_chatservice_subscribe" method) as [_ Hserver];
    [reflexivity|exact Hm|].
  vm_compute in Hm. injection Hm as <-. discriminate.
Qed.
End discovery.

(** ** The invocation engine *)

Section invocation.
Import GoStrings Types Reflection Builder.

Lemma LastIndex1_mono (s : string) (c : ascii) : -1 ≤ LastIndex1 s c.
Proof.
  induction s as [|d s IH]; simpl; [lia|].
  destruct (0 <=? LastIndex1 s c) eqn:Hr; [lia|].
  destruct (Ascii.eqb d c); lia.
Qed.

Lemma LastIndex1_app_found (s t : string) (c : ascii) :
  0 ≤ LastIndex1 t c → 0 ≤ LastIndex1 (s +:+ t) c.
Proof.
  intros Ht. induction s as [|d s IH]; simpl; [done|].
  destruct (Z.leb_spec 0 (LastIndex1 (s +:+ t) c)); lia.
Qed.

Lemma LastIndex1_head (s : string) (c : ascii) : 0 ≤ LastIndex1 (String c s) c.
Proof.
  simpl. destruct (Z.leb_spec 0 (LastIndex1 s c)); [lia|].
  by rewrite Ascii.eqb_refl.
Qed.

(** Discovery builds [FullName] as [ServiceName.Name]: it has a dot, so
    the slice of [InvokeMethod] is in range for every discovered method. *)
Lemma createMethodInfo_FullName `{UnicodeTables}
    (serviceName : string) (method : MethodDescriptorProto)
    (fileDescriptor : FileDescriptorProto) (methodInfo : MethodInfo) :
  createMethodInfoWithServiceContext serviceName method fileDescriptor
    = Ok methodInfo →
  FullName methodInfo = serviceName +:+ "." +:+ Name methodInfo
  ∧ 0 ≤ LastIndex1 (FullName methodInfo) "."%char.
Proof.
  unfold createMethodInfoWithServiceContext.
  destruct (resolveMessageDescriptor (mdp_InputType method) _); [|done].
  destruct (resolveMessageDescriptor (mdp_OutputType method) _); [|done].
  intros [= <-]. simpl. split; [done|].
  apply LastIndex1_app_found.
  change ("." +:+ mdp_Name method) with (String "."%char (mdp_Name method)).
  apply LastIndex1_head.
Qed.

Context `{World}.

End invocation.



(** ** The session rate limiter and the dispatcher *)

Section rate_limit.
Import Session.

Lemma wrap64_small (n : Z) : 0 ≤ n < 2 ^ 63 → wrap64 n = n.
Proof. intros Hn. unfold wrap64. rewrite Z.mod_small; lia. Qed.

(** Inside one window the limiter admits calls until the count of the
    session reaches the limit, and refuses every later one. *)
Lemma checkAll_window (times : list Z) :
  ∀ (m : Manager) (sessionID : string) (ctx : Context),
    cache m !! sessionID = Some ctx →
    0 ≤ RequestCount ctx ≤ requestsPerMinute m →
    requestsPerMinute m < 2 ^ 63 →
    Forall (λ now, now - WindowStart ctx ≤ windowSize m) times →
    let left := Z.to_nat (requestsPerMinute m - RequestCount ctx) in
    (checkAll m sessionID times).1
    = replicate (length times `min` left) true
      ++ replicate (length times - left) false.
Proof.
  induction times as [|now times IH]; intros m sessionID ctx Hctx Hcount Hmax Hin left;
    [done|].
  apply Forall_cons in Hin as [Hnow Hin].
  simpl. unfold CheckRateLimit at 1, GetSession. rewrite Hctx.
  assert ((windowSize m <? now - WindowStart ctx) = false) as -> by (apply Z.ltb_ge; lia).
  destruct (Z.leb_spec (requestsPerMinute m) (RequestCount ctx)) as [Hfull|Hroom].
  - assert (left = 0%nat) as Hleft by (unfold left; lia).
    specialize (IH (store m sessionID ctx) sessionID ctx).
    destruct (checkAll (store m sessionID ctx) sessionID times) as [answers m'] eqn:Hrun.
    simpl in *. rewrite IH; [|by rewrite lookup_insert_eq|done..].
    fold left. rewrite Hleft. simpl.
    by rewrite Nat.min_0_r, Nat.sub_0_r.
  - set (ctx' := withWindow ctx (wrap64 (RequestCount ctx + 1)) (WindowStart ctx)).
    assert (RequestCount ctx' = RequestCount ctx + 1) as Hcount'
      by (unfold ctx'; simpl; apply wrap64_small; lia).
    specialize (IH (store m sessionID ctx') sessionID ctx').
    destruct (checkAll (store m sessionID ctx') sessionID times) as [answers m'] eqn:Hrun.
    simpl in *. rewrite IH;
      [|by rewrite lookup_insert_eq|rewrite Hcount'; lia|done|done].
    rewrite Hcount'.
    assert (left = S (Z.to_nat (requestsPerMinute m - (RequestCount ctx + 1))))
      as -> by (unfold left; lia).
    reflexivity.
Qed.

Context `{UnicodeTables} `{World}.
Import Server.

(** [handleToolsCall] reads neither the request count nor the window of
    the session, and leaves both as they are. *)
Lemma handleToolsCall_window (h : Handler) (now : Z) (params : gmap string JSON)
    (ctx : Context) (requestCount windowStart : Z) :
  handleToolsCall h now params (withWindow ctx requestCount windowStart)
  = let '(r, ctx', log) := handleToolsCall h now params ctx in
    (r, withWindow ctx' requestCount windowStart, log).
Proof.
  unfold handleToolsCall.
  destruct (Validation.ValidateToolCallParams _ _); [done|].
  destruct (params !! "name") as [[]|]; try done.
  destruct (marshalArguments params); [|done].
  simpl.
  destruct (Discovery.InvokeMethodByTool _ _ _ _) as [[[]|] log]; done.
Qed.

(** A call of the engine whose arguments parse reaches the upstream
    once. *)
Lemma InvokeMethod_reaches_upstream (headers : gmap string string)
    (method : Types.MethodInfo) (inputJSON : string) :
  0 ≤ GoStrings.LastIndex1 (Types.FullName method) "."%char →
  (inputJSON ≠ "" → inputJSON ≠ "{}" →
   ∃ fields, protojson_Unmarshal inputJSON (Types.InputDescriptor method)
             = Ok fields) →
  ∃ r log,
    Reflection.InvokeMethod headers method inputJSON = (Returns r, log)
    ∧ length (List.filter isInvoke log) = 1%nat.
Proof.
  intros Hdot Hparse. unfold Reflection.InvokeMethod.
  assert ((GoStrings.LastIndex1 (Types.FullName method) "." <? 0) = false) as Hin
    by (apply Z.ltb_ge; lia).
  destruct (Builder.nonEmpty inputJSON && negb (String.eqb inputJSON "{}")) eqn:Hgate.
  - apply andb_prop in Hgate as [Hne1 Hne2].
    destruct Hparse as [fields ->].
    { intros ->. discriminate. }
    { intros ->. discriminate. }
    rewrite Hin. simpl.
    destruct (conn_Invoke _ _ _ _); [|by eauto].
    destruct (protojson_Marshal _); by eauto.
  - rewrite Hin. simpl.
    destruct (conn_Invoke _ _ _ _); [|by eauto].
    destruct (protojson_Marshal _); by eauto.
Qed.

(** A valid call of a discovered unary tool reaches the upstream once and
    is answered with a result, not with an error, whatever the session has
    done before. *)
Lemma handleToolsCall_invokes (h : Handler) (now : Z) (params : gmap string JSON)
    (ctx : Context) (toolName argumentsJSON : string) (method : Types.MethodInfo) :
  Validation.ValidateToolCallParams (validator h) params = None →
  params !! "name" = Some (JString toolName) →
  marshalArguments params = Ok argumentsJSON →
  Discovery.tools (serviceDiscoverer h) !! toolName = Some method →
  Types.IsClientStreaming method = false →
  Types.IsServerStreaming method = false →
  Discovery.reflectionClient (serviceDiscoverer h) = true →
  0 ≤ GoStrings.LastIndex1 (Types.FullName method) "."%char →
  (argumentsJSON ≠ "" → argumentsJSON ≠ "{}" →
   ∃ fields, protojson_Unmarshal argumentsJSON (Types.InputDescriptor method)
             = Ok fields) →
  ∃ r ctx' log,
    handleToolsCall h now params ctx = (Returns (Ok r), ctx', log)
    ∧ length (List.filter isInvoke log) = 1%nat.
Proof.
  intros Hvalid Hname Hargs Htool Hcs Hss Hconn Hdot Hparse.
  unfold handleToolsCall. rewrite Hvalid, Hname, Hargs.
  unfold Discovery.InvokeMethodByTool, Discovery.getMethodByTool.
  rewrite Htool, Hcs, Hss, Hconn. simpl.
  destruct (InvokeMethod_reaches_upstream
              (Headers.FilterHeaders (headerFilter h) (Headers ctx))
              method argumentsJSON Hdot Hparse) as (r & log & -> & Hlog).
  destruct r; eauto.
Qed.

(** The first call that comes more than a window after the start of the
    window starts a new one, and is admitted. *)
Lemma CheckRateLimit_restart (m : Manager) (sessionID : string) (ctx : Context)
    (now : Z) :
  cache m !! sessionID = Some ctx →
  windowSize m < now - WindowStart ctx →
  0 < requestsPerMinute m < 2 ^ 63 →
  ∃ ctx', CheckRateLimit m sessionID now = (true, store m sessionID ctx')
          ∧ RequestCount ctx' = 1 ∧ WindowStart ctx' = now.
Proof.
  intros Hctx Hlate Hmax. unfold CheckRateLimit, GetSession. rewrite Hctx.
  assert ((windowSize m <? now - WindowStart ctx) = true) as -> by (apply Z.ltb_lt; lia).
  simpl.
  assert ((requestsPerMinute m <=? 0) = false) as -> by (apply Z.leb_gt; lia).
  eexists. split; [reflexivity|]. simpl. split; [|done].
  apply wrap64_small. lia.
Qed.

(** A run of calls inside one window: the dispatcher neither refuses one
    of them nor touches the window of the session, whatever the limit. *)
Lemma handleToolsCalls_window (h : Handler) (requests : list (Z * gmap string JSON)) :
  ∀ ctx : Context,
    RequestCount (handleToolsCalls h requests ctx).1.2 = RequestCount ctx
    ∧ WindowStart (handleToolsCalls h requests ctx).1.2 = WindowStart ctx.
Proof.
  induction requests as [|[now params] requests IH]; intros ctx; simpl; [done|].
  destruct (handleToolsCall h now params ctx) as [[r ctx'] log] eqn:Hcall.
  assert (RequestCount ctx' = RequestCount ctx ∧ WindowStart ctx' = WindowStart ctx)
    as [Hcount Hstart].
  { unfold handleToolsCall in Hcall.
    destruct (Validation.ValidateToolCallParams _ _); [by injection Hcall as <- <- <-|].
    destruct (params !! "name") as [[]|]; try by injection Hcall as <- <- <-.
    destruct (marshalArguments params); [|by injection Hcall as <- <- <-].
    destruct (Discovery.InvokeMethodByTool _ _ _ _) as [[[]|] ?];
      by injection Hcall as <- <- <-. }
  specialize (IH ctx').
  destruct (handleToolsCalls h requests ctx') as [[rs ctx''] logs]. simpl in *.
  by rewrite <- Hcount, <- Hstart.
Qed.
End rate_limit.

(** C8.  The code at the failing input: a session sends 101 valid
    [tools/call] requests at one instant, under the default limit of 100
    calls per minute.  [CheckRateLimit], asked at those times, admits 100
    calls and refuses the last one; the dispatcher does not ask it: each of
    the 101 calls reaches the upstream and is answered with a result that is
    not an error, though the session had used up its window before the
    first of them. *)
Theorem rate_limit_not_enforced :
  Session.requestsPerMinute (Server.sessionManager Examples.helloHandler) = 100
  ∧ Session.windowSize (Server.sessionManager Examples.helloHandler) = 60 * 1000000000
  ∧ (Session.checkAll Examples.freshManager "s1" (replicate 101 5)).1
    = replicate 100 true ++ [false]
  ∧ Session.RequestCount Examples.exhaustedSession = 100
  ∧ (Server.handleToolsCalls (H := Examples.asciiTables) (H0 := Examples.echoWorld)
       Examples.helloHandler (replicate 101 (5, Examples.helloCall))
       Examples.exhaustedSession).1.1
    = replicate 101
        (Returns (Ok {| Server.Content := [Server.TextContent ""];
                        Server.IsError := false |}))
  ∧ length (List.filter (isInvoke (H := Examples.echoWorld))
              (Server.handleToolsCalls
                 (H := Examples.asciiTables) (H0 := Examples.echoWorld)
                 Examples.helloHandler (replicate 101 (5, Examples.helloCall))
                 Examples.exhaustedSession).2)
    = 101%nat.
Proof.
  split; [reflexivity|]. split; [reflexivity|]. split.
  - rewrite (checkAll_window (replicate 101 5) Examples.freshManager "s1"
               Examples.freshSession).
    + reflexivity.
    + reflexivity.
    + vm_compute. split; discriminate.
    + reflexivity.
    + apply Forall_replicate. vm_compute. discriminate.
  - split; [reflexivity|]. split; vm_compute; reflexivity.
Qed.

(** ** The schema projector *)

Section projector_loops.
Import Descriptors Builder Projection.

(** The recursive call behaves well at [visited]: it returns a schema and
    leaves the set as it found it. *)
Variable extractMessage : string → gset string → outcome JSON * gset string.
Variable visited : gset string.
Hypothesis extractMessage_done :
  ∀ target, ∃ schema, extractMessage target visited = (Done schema, visited).

Lemma extractFieldTypeSchemaInternal_done (kind : FieldKind) :
  supportedKind kind = true →
  ∃ schema,
    extractFieldTypeSchemaInternal extractMessage kind visited = (Done schema, visited).
Proof.
  destruct kind; simpl; try done; eauto.
  intros _. destruct (wellKnownSchema target); [by eauto|].
  destruct (extractMessage_done target) as [schema ->]. eauto.
Qed.

Lemma extractFieldTypeSchemaInternal_group (kind : FieldKind) :
  supportedKind kind = false →
  ∃ err,
    extractFieldTypeSchemaInternal extractMessage kind visited = (Failed err, visited).
Proof. destruct kind; simpl; try done; eauto. Qed.

Lemma extractFieldSchemaInternal_done (field : FieldDesc) :
  supported field = true →
  ∃ schema,
    extractFieldSchemaInternal extractMessage field visited = (Done schema, visited).
Proof.
  unfold supported, carriedKind, extractFieldSchemaInternal.
  destruct (fd_Shape field); intros Hk;
    destruct (extractFieldTypeSchemaInternal_done _ Hk) as [schema ->]; eauto.
Qed.

Lemma extractFieldSchemaInternal_group (field : FieldDesc) :
  supported field = false →
  ∃ err,
    extractFieldSchemaInternal extractMessage field visited = (Failed err, visited).
Proof.
  unfold supported, carriedKind, extractFieldSchemaInternal.
  destruct (fd_Shape field); intros Hk;
    destruct (extractFieldTypeSchemaInternal_group _ Hk) as [err ->]; eauto.
Qed.

(** A field never exhausts the budget, and never touches [visited]. *)
Lemma extractFieldSchemaInternal_cases (field : FieldDesc) :
  (∃ schema, supported field = true
     ∧ extractFieldSchemaInternal extractMessage field visited = (Done schema, visited))
  ∨ (∃ err, supported field = false
     ∧ extractFieldSchemaInternal extractMessage field visited = (Failed err, visited)).
Proof.
  destruct (supported field) eqn:Hs.
  - left. destruct (extractFieldSchemaInternal_done _ Hs); eauto.
  - right. destruct (extractFieldSchemaInternal_group _ Hs); eauto.
Qed.

Lemma schemaAt_supported (field : FieldDesc) :
  supported field = true → ∃ schema, schemaAt extractMessage visited field = Done schema.
Proof.
  intros Hs. unfold schemaAt.
  destruct (extractFieldSchemaInternal_done _ Hs) as [schema ->]. eauto.
Qed.

(** *** The loop over the fields *)

Lemma fieldsLoop_done (fields : list FieldDesc) :
  ∀ properties required,
  ∃ properties' required',
    fieldsLoop extractMessage fields properties required visited
    = (Some (properties', required'), visited)
    ∧ (∀ name, name ∉ fd_Name <$> fields → properties' !! name = properties !! name)
    ∧ (∀ field schema,
         NoDup (fd_Name <$> fields) → field ∈ fields →
         schemaAt extractMessage visited field = Done schema →
         properties' !! fd_Name field = Some schema).
Proof.
  induction fields as [|field fields IH]; intros properties required; simpl.
  - exists properties, required. split; [done|]. split; [done|].
    by intros ? ? _ ?%elem_of_nil.
  - destruct (extractFieldSchemaInternal_cases field)
      as [(schema & Hs & Hrun)|(err & Hs & Hrun)]; rewrite Hrun.
    + destruct (IH (<[fd_Name field := schema]> properties)
                   (if HasOptionalKeyword field || HasPresence field
                    then required else required ++ [fd_Name field]))
        as (properties' & required' & -> & Hother & Hfield).
      exists properties', required'. split; [done|]. split.
      * intros name [Hne Hnotin]%not_elem_of_cons.
        rewrite Hother by done. by rewrite lookup_insert_ne.
      * intros field' schema' [Hfresh Hnodup]%NoDup_cons
          [->|Hin]%elem_of_cons Hschema.
        -- rewrite Hother by done. rewrite lookup_insert_eq.
           unfold schemaAt in Hschema. rewrite Hrun in Hschema. simpl in Hschema.
           congruence.
        -- by apply Hfield.
    + destruct (IH properties required)
        as (properties' & required' & -> & Hother & Hfield).
      exists properties', required'. split; [done|]. split.
      * intros name [Hne Hnotin]%not_elem_of_cons. by apply Hother.
      * intros field' schema' [Hfresh Hnodup]%NoDup_cons
          [->|Hin]%elem_of_cons Hschema.
        -- unfold schemaAt in Hschema. rewrite Hrun in Hschema. done.
        -- by apply Hfield.
Qed.

(** *** The loops over the oneofs *)

Lemma oneofFieldsLoop_done (members : list FieldDesc) :
  ∀ options,
    oneofFieldsLoop extractMessage members options visited
    = (Some (options ++ optionsOf extractMessage visited members), visited).
Proof.
  induction members as [|field members IH]; intros options; simpl.
  - by rewrite app_nil_r.
  - unfold schemaAt.
    destruct (extractFieldSchemaInternal_cases field)
      as [(schema & Hs & Hrun)|(err & Hs & Hrun)]; rewrite Hrun; simpl.
    + rewrite IH. by rewrite <- app_assoc.
    + by rewrite IH.
Qed.

Lemma oneofsLoop_done (msgDesc : MessageDesc) (oneofs : list OneofDesc) :
  ∀ (i : nat) properties,
  ∃ properties',
    oneofsLoop extractMessage msgDesc i oneofs properties visited
    = (Some properties', visited)
    ∧ (∀ name, name ∉ oo_Name <$> oneofs → properties' !! name = properties !! name)
    ∧ (∀ (j : nat) oneof,
         NoDup (oo_Name <$> oneofs) → oneofs !! j = Some oneof →
         properties' !! oo_Name oneof
         = Some (JObject (oneofSchema oneof
                   (optionsOf extractMessage visited (OneofFields msgDesc (i + j)))))).
Proof.
  induction oneofs as [|oneof oneofs IH]; intros i properties; simpl.
  - exists properties. split; [done|]. split; [done|]. by intros ? ? _ ?.
  - rewrite oneofFieldsLoop_done. simpl.
    destruct (IH (S i) (<[oo_Name oneof :=
                           JObject (oneofSchema oneof
                             (optionsOf extractMessage visited
                                (OneofFields msgDesc i)))]> properties))
      as (properties' & -> & Hother & Honeof).
    exists properties'. split; [done|]. split.
    + intros name [Hne Hnotin]%not_elem_of_cons.
      rewrite Hother by done. by rewrite lookup_insert_ne.
    + intros j oneof' [Hfresh Hnodup]%NoDup_cons Hj.
      destruct j as [|j]; simpl in Hj.
      * injection Hj as <-. rewrite Hother by done.
        rewrite lookup_insert_eq. by rewrite Nat.add_0_r.
      * rewrite (Honeof j oneof' Hnodup Hj).
        by replace (S i + j)%nat with (i + S j)%nat by lia.
Qed.
End projector_loops.

Section projector.
Import Descriptors Builder Projection.
Variable reg : gmap string MessageDesc.

(** *** Re-entry *)

Lemma extractMessageSchemaInternal_visited (fuel : nat) (fullName : string)
    (visited : gset string) :
  fullName ∈ visited →
  extractMessageSchemaInternal reg (S fuel) fullName visited
  = (Done (refSchema fullName), visited).
Proof. intros Hin. simpl. by rewrite bool_decide_eq_true_2. Qed.

(** *** Expansion *)

Lemma unvisited_size (fullName : string) (visited : gset string) :
  fullName ∈ dom reg → fullName ∉ visited →
  (size (dom reg ∖ ({[ fullName ]} ∪ visited)) < size (dom reg ∖ visited))%nat.
Proof.
  intros Hdom Hnew. apply subset_size. set_solver.
Qed.

Lemma descriptorOf_unknown (fullName : string) :
  fullName ∉ dom reg → descriptorOf reg fullName = placeholder.
Proof.
  intros Hdom. unfold descriptorOf. by rewrite (not_elem_of_dom_1 _ _ Hdom).
Qed.

(** What one expansion returns, given that the calls with less fuel
    return.  [properties] holds the schema of every supported field under
    the field's name and the schema of every oneof under the oneof's name
    (the names being pairwise different), all made at the same [visited]
    set: the one of the call, with the message added. *)
Lemma extractMessageSchemaInternal_expand_with (fuel : nat)
    (Hless : ∀ target visited,
        (size (dom reg ∖ visited) < fuel)%nat →
        ∃ schema, extractMessageSchemaInternal reg fuel target visited
                  = (Done schema, visited))
    (fullName : string) (visited : gset string) :
  fullName ∉ visited →
  (size (dom reg ∖ visited) < S fuel)%nat →
  let msgDesc := descriptorOf reg fullName in
  let inner := {[ fullName ]} ∪ visited in
  ∃ properties required,
    extractMessageSchemaInternal reg (S fuel) fullName visited
    = (Done (messageSchema msgDesc properties required), visited)
    ∧ (∀ field schema,
         uniqueNames msgDesc → field ∈ Fields msgDesc →
         schemaAt (extractMessageSchemaInternal reg fuel) inner field = Done schema →
         properties !! fd_Name field = Some schema)
    ∧ (∀ (i : nat) oneof,
         uniqueNames msgDesc → Oneofs msgDesc !! i = Some oneof →
         properties !! oo_Name oneof
         = Some (JObject (oneofSchema oneof
                   (optionsOf (extractMessageSchemaInternal reg fuel) inner
                      (OneofFields msgDesc i))))).
Proof.
  intros Hnew Hsize msgDesc inner.
  assert (inner ∖ {[ fullName ]} = visited) as Hleave by (unfold inner; set_solver).
  simpl. rewrite bool_decide_eq_false_2 by done. fold msgDesc inner.
  destruct (decide (fullName ∈ dom reg)) as [Hdom|Hdom].
  - assert (∀ target, ∃ schema,
               extractMessageSchemaInternal reg fuel target inner
               = (Done schema, inner)) as Hgood.
    { intros target. apply Hless.
      pose proof (unvisited_size fullName visited Hdom Hnew) as Hless'.
      fold inner in Hless'. lia. }
    destruct (fieldsLoop_done _ inner Hgood (Fields msgDesc) ∅ [])
      as (fromFields & required & -> & Hkept & Hfield).
    destruct (oneofsLoop_done _ inner Hgood msgDesc (Oneofs msgDesc) 0 fromFields)
      as (properties & -> & Hother & Honeof).
    exists properties, required. rewrite Hleave. split; [done|]. split.
    + intros field schema Hunique Hin Hschema.
      apply NoDup_app in Hunique as (Hfields & Hdisjoint & Honeofs).
      rewrite Hother.
      * by apply Hfield.
      * apply Hdisjoint. by apply list_elem_of_fmap_2.
    + intros i oneof Hunique Hi.
      apply NoDup_app in Hunique as (Hfields & Hdisjoint & Honeofs).
      by rewrite (Honeof i oneof Honeofs Hi).
  - assert (msgDesc = placeholder) as Hnone by by apply descriptorOf_unknown.
    rewrite Hnone. simpl. exists ∅, []. rewrite Hleave. split; [done|].
    split; [intros ? ? _ Hin; by apply elem_of_nil in Hin|by intros ? ? _ ?].
Qed.

(** *** Termination *)

(** With more fuel than there are messages of the registry outside
    [visited], the projection of any message returns a schema, and
    [visited] is on return what it was on entry. *)
Lemma extractMessageSchemaInternal_terminates (fuel : nat) :
  ∀ (fullName : string) (visited : gset string),
    (size (dom reg ∖ visited) < fuel)%nat →
    ∃ schema,
      extractMessageSchemaInternal reg fuel fullName visited = (Done schema, visited).
Proof.
  induction fuel as [|fuel IH]; intros fullName visited Hsize; [lia|].
  destruct (decide (fullName ∈ visited)) as [Hin|Hnew].
  - rewrite extractMessageSchemaInternal_visited by done. eauto.
  - destruct (extractMessageSchemaInternal_expand_with fuel IH fullName visited
                Hnew Hsize) as (properties & required & -> & _). eauto.
Qed.

Lemma extractMessageSchemaInternal_expand (fuel : nat) (fullName : string)
    (visited : gset string) :
  fullName ∉ visited →
  (size (dom reg ∖ visited) < S fuel)%nat →
  let msgDesc := descriptorOf reg fullName in
  let inner := {[ fullName ]} ∪ visited in
  ∃ properties required,
    extractMessageSchemaInternal reg (S fuel) fullName visited
    = (Done (messageSchema msgDesc properties required), visited)
    ∧ (∀ field schema,
         uniqueNames msgDesc → field ∈ Fields msgDesc →
         schemaAt (extractMessageSchemaInternal reg fuel) inner field = Done schema →
         properties !! fd_Name field = Some schema)
    ∧ (∀ (i : nat) oneof,
         uniqueNames msgDesc → Oneofs msgDesc !! i = Some oneof →
         properties !! oo_Name oneof
         = Some (JObject (oneofSchema oneof
                   (optionsOf (extractMessageSchemaInternal reg fuel) inner
                      (OneofFields msgDesc i))))).
Proof.
  apply extractMessageSchemaInternal_expand_with.
  apply extractMessageSchemaInternal_terminates.
Qed.

Lemma ExtractMessageSchema_done (fullName : string) :
  ∃ schema, ExtractMessageSchema reg fullName = Done schema.
Proof.
  unfold ExtractMessageSchema.
  destruct (extractMessageSchemaInternal_terminates (S (size reg)) fullName ∅)
    as [schema ->]; [|by eauto].
  rewrite difference_empty_L, size_dom. lia.
Qed.
End projector.

Section projector_cycles.
Import Descriptors Builder Projection.
Variable reg : gmap string MessageDesc.

Lemma hasRef_here (m : gmap string JSON) (v : JSON) :
  m !! "$ref" = Some v → hasRef (JObject m) = true.
Proof.
  intros Hv. simpl. rewrite bool_decide_eq_true_2 by by eexists. done.
Qed.

Lemma anyMember_found (found : JSON → bool) (m : gmap string JSON)
    (k : string) (v : JSON) :
  m !! k = Some v → found v = true →
  map_fold (λ _ member acc, acc || found member) false m = true.
Proof.
  intros Hk Hv. revert Hk.
  apply (map_fold_weak_ind (λ acc (m : gmap string JSON),
           m !! k = Some v → acc = true)).
  - by rewrite lookup_empty.
  - intros i x m' acc Hi IH Hk.
    destruct (decide (i = k)) as [->|Hne].
    + rewrite lookup_insert_eq in Hk. injection Hk as ->.
      rewrite Hv. apply orb_true_r.
    + rewrite lookup_insert_ne in Hk by done. by rewrite IH.
Qed.

Lemma hasRef_member (m : gmap string JSON) (k : string) (v : JSON) :
  m !! k = Some v → hasRef v = true → hasRef (JObject m) = true.
Proof.
  intros Hk Hv. simpl. rewrite (anyMember_found hasRef m k v Hk Hv).
  apply orb_true_r.
Qed.

Lemma hasRef_refSchema (fullName : string) : hasRef (refSchema fullName) = true.
Proof. eapply hasRef_here. apply lookup_singleton_eq. Qed.

Lemma messageSchema_properties (msgDesc : MessageDesc)
    (properties : gmap string JSON) (required : list string) :
  ∃ schema, messageSchema msgDesc properties required = JObject schema
            ∧ schema !! "properties" = Some (JObject properties)
            ∧ schema !! "type" = Some (JString "object")
            ∧ schema !! "$ref" = None.
Proof.
  unfold messageSchema. eexists. split; [reflexivity|].
  destruct (nonEmpty (extractComments (msg_Location msgDesc)));
    destruct (0 <? length required)%nat; by simplify_map_eq.
Qed.

Lemma hasRef_messageSchema (msgDesc : MessageDesc)
    (properties : gmap string JSON) (required : list string)
    (name : string) (schema : JSON) :
  properties !! name = Some schema → hasRef schema = true →
  hasRef (messageSchema msgDesc properties required) = true.
Proof.
  intros Hname Href.
  destruct (messageSchema_properties msgDesc properties required)
    as (obj & -> & Hprops & _).
  eapply hasRef_member; [exact Hprops|].
  by eapply hasRef_member.
Qed.

(** The schema of a field that descends into a message holds the schema
    of that message: as it is, as [items], or under [patternProperties]. *)
Lemma schemaAt_expanded
    (extractMessage : string → gset string → outcome JSON * gset string)
    (visited : gset string) (field : FieldDesc) (target : string) (inner : JSON) :
  expandedMessage field = Some target →
  extractMessage target visited = (Done inner, visited) →
  ∃ schema, schemaAt extractMessage visited field = Done schema
            ∧ (hasRef inner = true → hasRef schema = true)
            ∧ (fd_Shape field = Singular → schema = inner)
            ∧ (∀ path,
                 valueAt schema
                   (match fd_Shape field with
                    | Singular => []
                    | IsList => ["items"]
                    | IsMap _ => ["patternProperties"; ".*"]
                    end ++ path)
                 = valueAt inner path).
Proof.
  unfold expandedMessage, carriedKind, schemaAt, extractFieldSchemaInternal.
  intros Htarget Hinner.
  destruct (fd_Shape field) as [| |valueKind] eqn:Hshape.
  - destruct (fd_Kind field) as [| | | | | | | | | | | | | | | |t|]; try done.
    simpl. destruct (wellKnownSchema t); [done|]. injection Htarget as ->.
    rewrite Hinner. eauto.
  - destruct (fd_Kind field) as [| | | | | | | | | | | | | | | |t|]; try done.
    simpl. destruct (wellKnownSchema t); [done|]. injection Htarget as ->.
    rewrite Hinner. simpl fst. eexists. split; [reflexivity|].
    split; [|split; [done|]].
    + intros Href. eapply hasRef_member; [apply lookup_insert_eq|done].
    + intros path. simpl. by rewrite lookup_insert_eq.
  - destruct valueKind as [| | | | | | | | | | | | | | | |t|]; try done.
    simpl. destruct (wellKnownSchema t); [done|]. injection Htarget as ->.
    rewrite Hinner. simpl fst. eexists. split; [reflexivity|].
    split; [|split; [done|]].
    + intros Href. eapply (hasRef_member _ "patternProperties").
      { rewrite lookup_insert_ne by done. apply lookup_insert_eq. }
      eapply hasRef_member; [apply lookup_singleton_eq|done].
    + intros path. simpl.
      rewrite lookup_insert_ne by done. rewrite lookup_insert_eq.
      by rewrite lookup_singleton_eq.
Qed.

Lemma refersTo_known (a b : string) : refersTo reg a b → a ∈ dom reg.
Proof.
  intros (field & Hin & _). apply elem_of_dom.
  unfold descriptorOf in Hin. destruct (reg !! a); [done|].
  by apply elem_of_nil in Hin.
Qed.

(** From a message that reaches a cycle, some field descends into a
    message that reaches a cycle. *)
Lemma reachesCycle_step (a : string) :
  reachesCycle (refersTo reg) a →
  ∃ c, refersTo reg a c ∧ reachesCycle (refersTo reg) c.
Proof.
  intros (b & Hreach & Hcycle).
  destruct Hreach as [a|a c b Hstep Hreach].
  - inversion Hcycle as [? ? Hstep|? c ? Hstep Hback]; subst.
    + exists a. split; [done|]. exists a. split; [done|]. by apply tc_once.
    + exists c. split; [done|]. exists c. split; [done|].
      eapply tc_r; [exact Hback|exact Hstep].
  - exists c. split; [done|]. by exists b.
Qed.

Hypothesis reg_uniqueNames :
  ∀ fullName msgDesc, reg !! fullName = Some msgDesc → uniqueNames msgDesc.

Lemma descriptorOf_uniqueNames (fullName : string) :
  uniqueNames (descriptorOf reg fullName).
Proof.
  unfold descriptorOf. destruct (reg !! fullName) eqn:Hm; simpl.
  - by eapply reg_uniqueNames.
  - apply NoDup_nil_2.
Qed.

(** One step of a path: if the projection of [b], made inside [a], has a
    reference, so has the projection of [a]. *)
Lemma refersTo_hasRef (fuel : nat) (a b : string) (visited : gset string)
    (inner : JSON) :
  refersTo reg a b → a ∉ visited →
  (size (dom reg ∖ visited) < S fuel)%nat →
  extractMessageSchemaInternal reg fuel b ({[ a ]} ∪ visited)
    = (Done inner, {[ a ]} ∪ visited) →
  hasRef inner = true →
  ∃ schema, extractMessageSchemaInternal reg (S fuel) a visited = (Done schema, visited)
            ∧ hasRef schema = true.
Proof.
  intros (field & Hin & Htarget) Hnew Hsize Hinner Href.
  destruct (extractMessageSchemaInternal_expand reg fuel a visited Hnew Hsize)
    as (properties & required & -> & Hfield & _).
  destruct (schemaAt_expanded _ _ field b inner Htarget Hinner)
    as (schema & Hschema & Hlift & _).
  eexists. split; [reflexivity|].
  eapply hasRef_messageSchema; [|by apply Hlift].
  apply Hfield; [apply descriptorOf_uniqueNames|done..].
Qed.

(** The projection of a message that reaches a cycle has a reference:
    following the fields towards the cycle and around it, the projector
    meets a message of its path before the budget is spent. *)
Lemma reachesCycle_hasRef (fuel : nat) :
  ∀ (a : string) (visited : gset string),
    a ∉ visited →
    (size (dom reg ∖ visited) < fuel)%nat →
    reachesCycle (refersTo reg) a →
    ∃ schema, extractMessageSchemaInternal reg fuel a visited = (Done schema, visited)
              ∧ hasRef schema = true.
Proof.
  induction fuel as [|fuel IH]; intros a visited Hnew Hsize Hreach; [lia|].
  destruct (reachesCycle_step a Hreach) as (c & Hstep & Hnext).
  pose proof (unvisited_size reg a visited (refersTo_known _ _ Hstep) Hnew) as Hless.
  destruct (decide (c ∈ {[ a ]} ∪ visited)) as [Hin|Hout].
  - destruct fuel as [|fuel]; [lia|].
    eapply refersTo_hasRef; [done..| |apply hasRef_refSchema].
    by apply extractMessageSchemaInternal_visited.
  - destruct (IH c ({[ a ]} ∪ visited)) as (inner & Hinner & Href); [done|lia|done|].
    by eapply refersTo_hasRef.
Qed.

Lemma ExtractMessageSchema_hasRef (fullName : string) :
  reachesCycle (refersTo reg) fullName →
  ∃ schema, ExtractMessageSchema reg fullName = Done schema ∧ hasRef schema = true.
Proof.
  intros Hcycle. unfold ExtractMessageSchema.
  destruct (reachesCycle_hasRef (S (size reg)) fullName ∅) as (schema & -> & Href);
    [set_solver| |done|by eauto].
  rewrite difference_empty_L, size_dom. lia.
Qed.
Lemma valueAt_messageSchema (msgDesc : MessageDesc)
    (properties : gmap string JSON) (required : list string)
    (name : string) (schema : JSON) (path : list string) :
  properties !! name = Some schema →
  valueAt (messageSchema msgDesc properties required) ("properties" :: name :: path)
  = valueAt schema path.
Proof.
  intros Hname.
  destruct (messageSchema_properties msgDesc properties required)
    as (obj & -> & Hprops & _).
  simpl. by rewrite Hprops, Hname.
Qed.

(** A path that leaves [a] through a field and ends in a message entered
    before, or visited before the call, is answered at its end with the
    reference to that message. *)
Lemma descends_ref (fields : list FieldDesc) :
  ∀ (fuel : nat) (a b : string) (visited : gset string),
    fields ≠ [] →
    descends reg a fields b →
    NoDup (entered a fields) →
    (∀ x, x ∈ entered a fields → x ∉ visited) →
    b ∈ entered a fields ∨ b ∈ visited →
    (size (dom reg ∖ visited) < fuel)%nat →
    ∃ schema,
      extractMessageSchemaInternal reg fuel a visited = (Done schema, visited)
      ∧ valueAt schema (concat (fieldPath <$> fields)) = Some (refSchema b).
Proof.
  induction fields as [|field rest IH];
    intros fuel a b visited Hsome Hpath Hnodup Hfresh Hback Hsize; [done|].
  destruct Hpath as (Hin & c & Htarget & Hrest).
  simpl in Hnodup, Hfresh, Hback. rewrite Htarget in Hnodup, Hfresh, Hback.
  apply NoDup_cons in Hnodup as [Hfirst Hnodup].
  assert (a ∉ visited) as Hnew by (apply Hfresh; left).
  assert (a ∈ dom reg) as Hdom.
  { apply (refersTo_known a c). by exists field. }
  pose proof (unvisited_size reg a visited Hdom Hnew) as Hless.
  destruct fuel as [|fuel]; [lia|].
  assert (∃ inner,
             extractMessageSchemaInternal reg fuel c ({[ a ]} ∪ visited)
             = (Done inner, {[ a ]} ∪ visited)
             ∧ valueAt inner (concat (fieldPath <$> rest)) = Some (refSchema b))
    as (inner & Hinner & Hvalue).
  { destruct rest as [|next rest].
    - simpl in Hrest. subst c.
      destruct fuel as [|fuel]; [lia|].
      exists (refSchema b). split; [|done].
      apply extractMessageSchemaInternal_visited.
      destruct Hback as [Hb|Hb]; [|set_solver].
      apply elem_of_cons in Hb as [->|Hb]; [set_solver|].
      by apply elem_of_nil in Hb.
    - apply IH; [done|done|done| | |lia].
      + intros x Hx. apply not_elem_of_union. split.
        * apply not_elem_of_singleton. intros ->. done.
        * apply Hfresh. by right.
      + destruct Hback as [Hb|Hb]; [|right; set_solver].
        apply elem_of_cons in Hb as [->|Hb]; [right; set_solver|by left]. }
  destruct (extractMessageSchemaInternal_expand reg fuel a visited Hnew Hsize)
    as (properties & required & -> & Hfield & _).
  destruct (schemaAt_expanded _ _ field c inner Htarget Hinner)
    as (schema & Hschema & _ & _ & Hat).
  eexists. split; [reflexivity|].
  change (concat (fieldPath <$> field :: rest))
    with ("properties" :: fd_Name field ::
          (match fd_Shape field with
           | Singular => []
           | IsList => ["items"]
           | IsMap _ => ["patternProperties"; ".*"]
           end ++ concat (fieldPath <$> rest))).
  rewrite (valueAt_messageSchema _ _ _ (fd_Name field) schema).
  - by rewrite Hat.
  - apply Hfield; [apply descriptorOf_uniqueNames|done..].
Qed.

Lemma ExtractMessageSchema_ref (root b : string) (fields : list FieldDesc) :
  fields ≠ [] →
  descends reg root fields b →
  NoDup (entered root fields) →
  b ∈ entered root fields →
  ∃ schema,
    ExtractMessageSchema reg root = Done schema
    ∧ valueAt schema (concat (fieldPath <$> fields)) = Some (refSchema b).
Proof.
  intros Hsome Hpath Hnodup Hback. unfold ExtractMessageSchema.
  destruct (descends_ref fields (S (size reg)) root b ∅) as (schema & -> & Hat);
    [done|done|done|set_solver|by left| |by eauto].
  rewrite difference_empty_L, size_dom. lia.
Qed.
End projector_cycles.

Section projector_claims.
Import Descriptors Builder Projection.
Variable reg : gmap string MessageDesc.

Lemma messageSchema_not_ref (msgDesc : MessageDesc)
    (properties : gmap string JSON) (required : list string) (fullName : string) :
  messageSchema msgDesc properties required ≠ refSchema fullName.
Proof.
  destruct (messageSchema_properties msgDesc properties required)
    as (schema & -> & _ & _ & Hnoref).
  unfold refSchema. intros [= ->]. by rewrite lookup_singleton_eq in Hnoref.
Qed.

(** Two fields of one message that descend into the same message, off the
    current path, both get its expansion. *)
Lemma siblings_expand (fuel : nat) (fullName : string) (visited : gset string)
    (first second : FieldDesc) (target : string) :
  let msgDesc := descriptorOf reg fullName in
  fullName ∉ visited →
  (size (dom reg ∖ visited) < S fuel)%nat →
  uniqueNames msgDesc →
  first ∈ Fields msgDesc → second ∈ Fields msgDesc →
  fd_Shape first = Singular → fd_Shape second = Singular →
  expandedMessage first = Some target → expandedMessage second = Some target →
  target ∉ {[ fullName ]} ∪ visited →
  ∃ properties required inner innerRequired,
    extractMessageSchemaInternal reg (S fuel) fullName visited
    = (Done (messageSchema msgDesc properties required), visited)
    ∧ properties !! fd_Name first
      = Some (messageSchema (descriptorOf reg target) inner innerRequired)
    ∧ properties !! fd_Name second
      = Some (messageSchema (descriptorOf reg target) inner innerRequired)
    ∧ messageSchema (descriptorOf reg target) inner innerRequired ≠ refSchema target.
Proof.
  intros msgDesc Hnew Hsize Hunique Hfirst Hsecond Hs1 Hs2 Ht1 Ht2 Hoff.
  assert (fullName ∈ dom reg) as Hdom.
  { apply (refersTo_known reg fullName target). by exists first. }
  pose proof (unvisited_size reg fullName visited Hdom Hnew) as Hless.
  destruct fuel as [|fuel]; [lia|].
  destruct (extractMessageSchemaInternal_expand reg (S fuel) fullName visited
              Hnew Hsize) as (properties & required & Hrun & Hfield & _).
  destruct (extractMessageSchemaInternal_expand reg fuel target
              ({[ fullName ]} ∪ visited) Hoff ltac:(lia))
    as (inner & innerRequired & Hinner & _).
  exists properties, required, inner, innerRequired.
  split; [exact Hrun|].
  destruct (schemaAt_expanded _ _ first target _ Ht1 Hinner) as (s1 & Hs1' & _ & Heq1 & _).
  destruct (schemaAt_expanded _ _ second target _ Ht2 Hinner) as (s2 & Hs2' & _ & Heq2 & _).
  rewrite (Heq1 Hs1) in Hs1'. rewrite (Heq2 Hs2) in Hs2'.
  split; [by apply Hfield|]. split; [by apply Hfield|].
  apply messageSchema_not_ref.
Qed.

(** C7, as amended.  With a budget above the number of registry messages
    that are not on the path, the projection of every message returns a
    schema, cyclic graph or not, and the [visited] set is on return what it
    was on entry; [ExtractMessageSchema] always returns.  A message that is
    on the path is answered with [{"$ref": "#/definitions/" + FQN}], without
    descending.  Hence, the fields and oneofs of a message having different
    names: the projection of a message that reaches a cycle of messages the
    projector descends into (none of them entered as a well-known type) has
    a [$ref]; and each such cycle has its own: where a path of fields, from
    the projected message through messages that differ, comes back to a
    message of the path, the schema holds at the end of that path the
    reference to that message.  Two sibling fields that descend into one
    message off the path both get its expansion, not a [$ref]. *)
Theorem projection_terminates_path_scoped :
  (∀ (fuel : nat) (fullName : string) (visited : gset string),
     (size (dom reg ∖ visited) < fuel)%nat →
     ∃ schema,
       extractMessageSchemaInternal reg fuel fullName visited = (Done schema, visited))
  ∧ (∀ fullName, ∃ schema, ExtractMessageSchema reg fullName = Done schema)
  ∧ (∀ (fuel : nat) (fullName : string) (visited : gset string),
       fullName ∈ visited →
       extractMessageSchemaInternal reg (S fuel) fullName visited
       = (Done (JObject {[ "$ref" := JString ("#/definitions/" +:+ fullName) ]}),
          visited))
  ∧ ((∀ fullName msgDesc, reg !! fullName = Some msgDesc → uniqueNames msgDesc) →
     (∀ fullName, reachesCycle (refersTo reg) fullName →
        ∃ schema, ExtractMessageSchema reg fullName = Done schema
                  ∧ hasRef schema = true)
     ∧ (∀ (root back : string) (fields : list FieldDesc),
          fields ≠ [] →
          descends reg root fields back →
          NoDup (entered root fields) →
          back ∈ entered root fields →
          ∃ schema,
            ExtractMessageSchema reg root = Done schema
            ∧ valueAt schema (concat (fieldPath <$> fields))
              = Some (JObject {[ "$ref" := JString ("#/definitions/" +:+ back) ]})))
  ∧ (∀ (fuel : nat) (fullName : string) (visited : gset string)
       (first second : FieldDesc) (target : string),
       fullName ∉ visited →
       (size (dom reg ∖ visited) < S fuel)%nat →
       uniqueNames (descriptorOf reg fullName) →
       first ∈ Fields (descriptorOf reg fullName) →
       second ∈ Fields (descriptorOf reg fullName) →
       fd_Shape first = Singular → fd_Shape second = Singular →
       expandedMessage first = Some target → expandedMessage second = Some target →
       target ∉ {[ fullName ]} ∪ visited →
       ∃ properties required inner innerRequired,
         extractMessageSchemaInternal reg (S fuel) fullName visited
         = (Done (messageSchema (descriptorOf reg fullName) properties required),
            visited)
         ∧ properties !! fd_Name first
           = Some (messageSchema (descriptorOf reg target) inner innerRequired)
         ∧ properties !! fd_Name second
           = Some (messageSchema (descriptorOf reg target) inner innerRequired)
         ∧ messageSchema (descriptorOf reg target) inner innerRequired
           ≠ refSchema target).
Proof.
  split; [apply extractMessageSchemaInternal_terminates|].
  split; [apply ExtractMessageSchema_done|].
  split; [intros; by apply extractMessageSchemaInternal_visited|].
  split.
  { intros Hunique. split.
    - intros fullName. by apply ExtractMessageSchema_hasRef.
    - intros root back fields. by apply ExtractMessageSchema_ref. }
  intros. by apply siblings_expand.
Qed.

(** The alternatives of a oneof: one for each member of a supported kind,
    requiring that member only. *)
Lemma optionsOf_members
    (extractMessage : string → gset string → outcome JSON * gset string)
    (visited : gset string)
    (Hgood : ∀ target, ∃ schema,
         extractMessage target visited = (Done schema, visited))
    (members : list FieldDesc) :
  Forall2 (λ member option,
             ∃ schema, schemaAt extractMessage visited member = Done schema
                       ∧ option = oneofOption (fd_Name member) schema)
          (filter (λ member, supported member = true) members)
          (optionsOf extractMessage visited members).
Proof.
  induction members as [|member members IH]; simpl; [constructor|].
  unfold schemaAt at 2.
  destruct (extractFieldSchemaInternal_cases _ _ Hgood member)
    as [(schema & Hs & Hrun)|(err & Hs & Hrun)]; rewrite Hrun; simpl.
  - rewrite filter_cons_True by done. constructor; [|done].
    exists schema. split; [|done]. unfold schemaAt. by rewrite Hrun.
  - rewrite filter_cons_False by congruence. done.
Qed.

(** C4, as amended.  The projection of a message (its fields and oneofs
    having different names) has, for each oneof, one property named after
    it: an object of type [object] whose [oneOf] list has one entry per
    member of a supported kind, [{type: object, properties: {member:
    schema}, required: [member]}]; and each such member is also a
    top-level property of the message schema, with the same schema. *)
Theorem oneof_projection (fuel : nat) (fullName : string) (visited : gset string) :
  let msgDesc := descriptorOf reg fullName in
  let inner := {[ fullName ]} ∪ visited in
  let recurse := extractMessageSchemaInternal reg fuel in
  fullName ∉ visited →
  (size (dom reg ∖ visited) < S fuel)%nat →
  uniqueNames msgDesc →
  ∃ properties required,
    extractMessageSchemaInternal reg (S fuel) fullName visited
    = (Done (messageSchema msgDesc properties required), visited)
    ∧ (∀ (i : nat) oneof,
         Oneofs msgDesc !! i = Some oneof →
         ∃ schema options,
           properties !! oo_Name oneof = Some (JObject schema)
           ∧ schema !! "type" = Some (JString "object")
           ∧ schema !! "oneOf" = Some (JArray options)
           ∧ Forall2 (λ member option,
                        ∃ memberSchema,
                          schemaAt recurse inner member = Done memberSchema
                          ∧ option
                            = JObject
                                (<["required" := JArray [JString (fd_Name member)]]>
                                (<["properties" :=
                                     JObject {[ fd_Name member := memberSchema ]}]>
                                (<["type" := JString "object"]> ∅))))
                     (filter (λ member, supported member = true)
                             (OneofFields msgDesc i))
                     options)
    ∧ (∀ (i : nat) member,
         member ∈ OneofFields msgDesc i → supported member = true →
         ∃ memberSchema,
           schemaAt recurse inner member = Done memberSchema
           ∧ properties !! fd_Name member = Some memberSchema).
Proof.
  intros msgDesc inner recurse Hnew Hsize Hunique.
  destruct (extractMessageSchemaInternal_expand reg fuel fullName visited Hnew Hsize)
    as (properties & required & Hrun & Hfield & Honeof).
  exists properties, required. split; [exact Hrun|].
  destruct (decide (fullName ∈ dom reg)) as [Hdom|Hdom].
  - assert (∀ target, ∃ schema, recurse target inner = (Done schema, inner)) as Hgood.
    { intros target. apply extractMessageSchemaInternal_terminates.
      pose proof (unvisited_size reg fullName visited Hdom Hnew) as Hless.
      fold inner in Hless. lia. }
    split.
    + intros i oneof Hi.
      exists (oneofSchema oneof (optionsOf recurse inner (OneofFields msgDesc i))),
             (optionsOf recurse inner (OneofFields msgDesc i)).
      split; [by apply Honeof|].
      split; [|split].
      * unfold oneofSchema.
        destruct (nonEmpty (extractComments (oo_Location oneof))); by simplify_map_eq.
      * unfold oneofSchema. by rewrite lookup_insert_eq.
      * by apply optionsOf_members.
    + intros i member Hmember Hsupported.
      destruct (schemaAt_supported _ _ Hgood member Hsupported) as [schema Hschema].
      exists schema. split; [done|].
      apply Hfield; [done| |done].
      unfold OneofFields in Hmember.
      apply list_elem_of_In, filter_In in Hmember as [Hin _].
      by apply list_elem_of_In.
  - assert (msgDesc = placeholder) as Hnone by by apply descriptorOf_unknown.
    rewrite Hnone. split; [by intros ? ? ?|].
    intros i member Hin. by apply elem_of_nil in Hin.
Qed.
End projector_claims.

Section projector_examples.
Import Descriptors Builder Projection Examples.

(** Membership in a list that is given by computation. *)
Local Ltac member_by_computation :=
  apply list_elem_of_In; vm_compute;
  repeat first [left; reflexivity | right].

Lemma treeRegistry_uniqueNames (fullName : string) (msgDesc : MessageDesc) :
  treeRegistry !! fullName = Some msgDesc → uniqueNames msgDesc.
Proof.
  revert fullName msgDesc.
  change (map_Forall (λ _ msgDesc, uniqueNames msgDesc) treeRegistry).
  compute_done.
Qed.

Lemma projection_terminates_path_scoped_witness :
  (∃ schema,
     extractMessageSchemaInternal treeRegistry 3%nat "tree.Node" ∅ = (Done schema, ∅))
  ∧ extractMessageSchemaInternal treeRegistry 1%nat "tree.Node" {[ "tree.Node" ]}
    = (Done (JObject {[ "$ref" := JString "#/definitions/tree.Node" ]}),
       {[ "tree.Node" ]})
  ∧ (∃ schema, ExtractMessageSchema treeRegistry "tree.Pair" = Done schema
               ∧ hasRef schema = true)
  ∧ (∃ schema, ExtractMessageSchema treeRegistry "tree.Pair" = Done schema
               ∧ valueAt schema ["properties"; "right";
                                 "properties"; "children"; "items"]
                 = Some (JObject {[ "$ref" := JString "#/definitions/tree.Node" ]}))
  ∧ (∃ properties required inner innerRequired,
       extractMessageSchemaInternal treeRegistry 3%nat "tree.Pair" ∅
       = (Done (messageSchema pairMessage properties required), ∅)
       ∧ properties !! "left" = Some (messageSchema nodeMessage inner innerRequired)
       ∧ properties !! "right" = Some (messageSchema nodeMessage inner innerRequired)
       ∧ messageSchema nodeMessage inner innerRequired ≠ refSchema "tree.Node").
Proof.
  pose proof (projection_terminates_path_scoped treeRegistry)
    as (Hterminates & _ & Hvisited & Hcycle & Hsiblings).
  specialize (Hcycle treeRegistry_uniqueNames) as [Hreaches Hlasso].
  split; [|split; [|split; [|split]]].
  - apply Hterminates. vm_compute. lia.
  - apply (Hvisited 0%nat "tree.Node" {[ "tree.Node" ]}). set_solver.
  - apply Hreaches.
    exists "tree.Node". split.
    + apply rtc_once. exists pairLeft. split; [|reflexivity].
      member_by_computation.
    + apply tc_once. exists nodeChildren. split; [|reflexivity].
      member_by_computation.
  - apply (Hlasso "tree.Pair" "tree.Node" [pairRight; nodeChildren]).
    + discriminate.
    + split; [member_by_computation|]. exists "tree.Node". split; [reflexivity|].
      split; [member_by_computation|]. by exists "tree.Node".
    + compute_done.
    + compute_done.
  - apply (Hsiblings 2%nat "tree.Pair" ∅ pairLeft pairRight "tree.Node").
    + set_solver.
    + vm_compute. lia.
    + apply (treeRegistry_uniqueNames "tree.Pair"). reflexivity.
    + member_by_computation.
    + member_by_computation.
    + reflexivity.
    + reflexivity.
    + reflexivity.
    + reflexivity.
    + set_solver.
Defined.

(** C7 as stated fails for the cycles of the well-known types: [Struct] and
    [Value] refer to each other, but a field of type [Struct] is replaced
    by a fixed schema, so the projection of a message with such a field has
    a cyclic message graph and no [$ref]. *)
Lemma wellknown_cycle_counterexample :
  ¬ (∀ (reg : gmap string MessageDesc) (root : string),
       (∀ fullName msgDesc, reg !! fullName = Some msgDesc → uniqueNames msgDesc) →
       reachesCycle (messageEdge reg) root →
       ∃ schema, ExtractMessageSchema reg root = Done schema ∧ hasRef schema = true).
Proof.
  intros Hclaim.
  destruct (Hclaim structRegistry "api.Settings") as (schema & Hrun & Href).
  - change (map_Forall (λ _ msgDesc, uniqueNames msgDesc) structRegistry).
    compute_done.
  - exists "google.protobuf.Struct". split.
    + apply rtc_once. exists settingsData. split; [|reflexivity].
      member_by_computation.
    + eapply tc_l; [|apply tc_once].
      * exists structFields. split; [|reflexivity]. member_by_computation.
      * exists valueStruct. split; [|reflexivity]. member_by_computation.
  - assert (match ExtractMessageSchema structRegistry "api.Settings" with
            | Done schema => hasRef schema
            | _ => false
            end = false) as Hnone by (vm_compute; reflexivity).
    rewrite Hrun in Hnone. congruence.
Qed.

Lemma oneof_projection_witness :
  ∃ properties memberSchema,
    (∃ required,
       extractMessageSchemaInternal documentRegistry 3%nat "doc.Document" ∅
       = (Done (messageSchema documentMessage properties required), ∅))
    ∧ is_Some (properties !! "metadata")
    ∧ schemaAt (extractMessageSchemaInternal documentRegistry 2%nat)
        {[ "doc.Document" ]} simpleSummary = Done memberSchema
    ∧ properties !! "simple_summary" = Some memberSchema.
Proof.
  destruct (oneof_projection documentRegistry 2%nat "doc.Document" ∅)
    as (properties & required & Hrun & Honeof & Hmember).
  - set_solver.
  - vm_compute. lia.
  - unfold uniqueNames. compute_done.
  - destruct (Hmember 0%nat simpleSummary) as (memberSchema & Hschema & Htop).
    + member_by_computation.
    + reflexivity.
    + destruct (Honeof 0%nat {| oo_Name := "metadata"; oo_Location := noLocation |})
        as (schema & options & Hmeta & _); [reflexivity|].
      exists properties, memberSchema.
      split; [by exists required|]. split; [by eexists|].
      split; [|done].
      replace ({[ "doc.Document" ]} : gset string)
        with ({[ "doc.Document" ]} ∪ ∅ : gset string) by set_solver.
      exact Hschema.
Defined.

(** C4 as stated fails: a member of a oneof is also a top-level property
    of the message schema. *)
Lemma oneof_member_top_level_counterexample :
  ¬ (∀ (reg : gmap string MessageDesc) (fullName : string)
       (schema properties : gmap string JSON) (member : FieldDesc) (i : nat),
       ExtractMessageSchema reg fullName = Done (JObject schema) →
       schema !! "properties" = Some (JObject properties) →
       member ∈ OneofFields (descriptorOf reg fullName) i →
       is_Some (Oneofs (descriptorOf reg fullName) !! i) →
       properties !! fd_Name member = None).
Proof.
  intros Hclaim.
  destruct (extractMessageSchemaInternal_expand documentRegistry 2%nat
              "doc.Document" ∅) as (properties & required & Hrun & Hfield & _);
    [set_solver|vm_compute; lia|].
  change (descriptorOf documentRegistry "doc.Document") with documentMessage in *.
  destruct (messageSchema_properties documentMessage properties required)
    as (schema & Hschema & Hprops & _).
  assert (properties !! "simple_summary" = Some (JObject (typed "string")))
    as Hmember.
  { apply (Hfield simpleSummary).
    - unfold uniqueNames. compute_done.
    - member_by_computation.
    - reflexivity. }
  assert (properties !! "simple_summary" = None) as Hnone; [|congruence].
  apply (Hclaim documentRegistry "doc.Document" schema properties simpleSummary 0%nat).
  - unfold ExtractMessageSchema.
    change (S (size documentRegistry)) with 3%nat. by rewrite Hrun, <- Hschema.
  - exact Hprops.
  - member_by_computation.
  - by eexists.
Qed.

(** The schema of [Document]: the member [simple_summary] is a property
    of the message and an alternative of the property [metadata]. *)
Example oneof_projection_document :
  let schema := ExtractMessageSchema documentRegistry "doc.Document" in
  schemaPath schema ["properties"; "simple_summary"]
    = Some (JObject (typed "string"))
  ∧ schemaPath schema ["properties"; "metadata"; "type"] = Some (JString "object")
  ∧ ∃ wrapperSchema,
      ExtractMessageSchema documentRegistry "tree.Node" = Done wrapperSchema
      ∧ schemaPath schema ["properties"; "metadata"; "oneOf"]
        = Some (JArray [oneofOption "simple_summary" (JObject (typed "string"));
                        oneofOption "wrapper" wrapperSchema]).
Proof.
  split; [vm_compute; reflexivity|]. split; [vm_compute; reflexivity|].
  destruct (ExtractMessageSchema documentRegistry "tree.Node") as [wrapperSchema| |]
    eqn:Hnode; [|vm_compute in Hnode; discriminate..].
  exists wrapperSchema. split; [done|].
  vm_compute in Hnode. injection Hnode as <-. vm_compute. reflexivity.
Qed.

(** The schema of the recursive [Node]: the items of [children] are a
    reference to [Node]. *)
Example recursive_projection_node :
  schemaPath (ExtractMessageSchema treeRegistry "tree.Node")
    ["properties"; "children"; "items"]
  = Some (refSchema "tree.Node").
Proof. vm_compute. reflexivity. Qed.
End projector_examples.

(** ** Streaming methods *)

Section streaming.
Import Types Builder Tools Discovery.
Context `{UnicodeTables} `{World}.
Variable reg : gmap string Descriptors.MessageDesc.

Lemma BuildTool_returns (method : MethodInfo) : BuildTool reg method ≠ OutOfFuel.
Proof.
  unfold BuildTool.
  destruct (ExtractMessageSchema_done reg (InputDescriptor method)) as [input ->].
  destruct (ExtractMessageSchema_done reg (OutputDescriptor method)) as [output ->].
  by destruct (validateTool _).
Qed.

(** The loop of [BuildTools] appends tools of unary methods only. *)
Lemma buildToolsLoop_unary (methods : list MethodInfo) :
  ∀ built, ∃ tools,
    buildToolsLoop reg methods built = Done (built ++ tools)
    ∧ Forall (λ tool, ∃ method,
                 method ∈ methods
                 ∧ IsClientStreaming method = false
                 ∧ IsServerStreaming method = false
                 ∧ BuildTool reg method = Done tool) tools.
Proof.
  induction methods as [|method methods IH]; intros built; simpl.
  - exists []. by rewrite app_nil_r.
  - destruct (IsClientStreaming method || IsServerStreaming method) eqn:Hstream.
    + destruct (IH built) as (tools & -> & Hunary). exists tools. split; [done|].
      eapply Forall_impl; [exact Hunary|].
      intros tool (m & Hin & ?). exists m. split; [by right|done].
    + apply orb_false_elim in Hstream as [Hclient Hserver].
      destruct (BuildTool reg method) as [tool|err|] eqn:Hbuild.
      * destruct (IH (built ++ [tool])) as (tools & -> & Hunary).
        exists (tool :: tools). split; [by rewrite <- app_assoc|].
        constructor.
        -- exists method. split; [by left|done].
        -- eapply Forall_impl; [exact Hunary|].
           intros tool' (m & Hin & ?). exists m. split; [by right|done].
      * destruct (IH built) as (tools & -> & Hunary). exists tools. split; [done|].
        eapply Forall_impl; [exact Hunary|].
        intros tool (m & Hin & ?). exists m. split; [by right|done].
      * by apply BuildTool_returns in Hbuild.
Qed.

Lemma filter_unused_name (methods : list MethodInfo) (name : string) :
  name ∉ ToolName <$> methods →
  filter (λ method, ToolName method = name) methods = [].
Proof.
  induction methods as [|first methods IH]; [done|].
  intros [Hne Hrest]%not_elem_of_cons.
  rewrite filter_cons_False by done. by apply IH.
Qed.

(** With pairwise different tool names, every discovered method is in the
    map under its tool name. *)
Lemma toolMapOf_unique (methods : list MethodInfo) (method : MethodInfo) :
  NoDup (ToolName <$> methods) → method ∈ methods →
  toolMapOf (Some methods) !! ToolName method = Some method.
Proof.
  intros Hnodup Hin. rewrite toolMapOf_lookup. simpl.
  induction methods as [|first methods IH]; [by apply elem_of_nil in Hin|].
  apply NoDup_cons in Hnodup as [Hfresh Hnodup].
  apply elem_of_cons in Hin as [->|Hin].
  - rewrite filter_cons_True by done.
    by rewrite filter_unused_name.
  - rewrite filter_cons_False; [by apply IH|].
    intros Heq. apply Hfresh. rewrite Heq. by apply list_elem_of_fmap_2.
Qed.

(** C2, as amended.  The published map holds every discovered method
    under its tool name, streaming or not (the tool names being pairwise
    different); streaming methods are kept away from the clients downstream
    of the map.  [BuildTools], which makes the answer of [tools/list],
    always returns, and each of its tools is built from a method that
    streams in neither direction; [InvokeMethodByTool], which serves
    [tools/call], answers a call of a streaming entry of the map with an
    error and calls nothing. *)
Theorem streaming_filtered_downstream :
  (∀ (methods : list MethodInfo) (method : MethodInfo),
     NoDup (ToolName <$> methods) → method ∈ methods →
     toolMapOf (Some methods) !! ToolName method = Some method)
  ∧ (∀ methods : list MethodInfo,
     ∃ tools,
       BuildTools reg methods = Done tools
       ∧ Forall (λ tool, ∃ method,
                    method ∈ methods
                    ∧ IsClientStreaming method = false
                    ∧ IsServerStreaming method = false
                    ∧ BuildTool reg method = Done tool) tools)
  ∧ (∀ (d : serviceDiscoverer) (headers : gmap string string)
       (toolName inputJSON : string) (method : MethodInfo),
       tools d !! toolName = Some method →
       IsClientStreaming method || IsServerStreaming method = true →
       InvokeMethodByTool d headers toolName inputJSON
       = (Returns (Err "streaming methods are not supported"), [])).
Proof.
  split; [apply toolMapOf_unique|]. split.
  - intros methods. destruct (buildToolsLoop_unary methods []) as (tools & Hrun & Hunary).
    exists tools. by split.
  - intros d headers toolName inputJSON method Htool Hstream.
    unfold InvokeMethodByTool, getMethodByTool. by rewrite Htool, Hstream.
Qed.
End streaming.

Lemma streaming_filtered_downstream_witness :
  ∃ method,
    Discovery.tools Examples.chatDiscoverer !! "chat_chatservice_subscribe"
      = Some method
    ∧ Types.IsServerStreaming method = true
    ∧ Discovery.InvokeMethodByTool (H := Examples.echoWorld) Examples.chatDiscoverer ∅
        "chat_chatservice_subscribe" "{}"
      = (Returns (Err "streaming methods are not supported"), []).
Proof.
  destruct (Discovery.tools Examples.chatDiscoverer !! "chat_chatservice_subscribe")
    as [method|] eqn:Hm; [|vm_compute in Hm; discriminate].
  assert (Types.IsServerStreaming method = true) as Hserver.
  { vm_compute in Hm. by injection Hm as <-. }
  exists method. split; [done|]. split; [done|].
  apply (proj2 (proj2 (streaming_filtered_downstream
                         (H := Examples.asciiTables) (H0 := Examples.echoWorld) ∅))
           Examples.chatDiscoverer ∅ "chat_chatservice_subscribe" "{}" method Hm).
  rewrite Hserver. apply orb_true_r.
Defined.

(** The tools of the chat service: the streaming method has none. *)
Example BuildTools_chat :
  match Tools.BuildTools (H := Examples.asciiTables) ∅ Examples.chatMethods with
  | Done tools => Tools.tool_Name <$> tools = ["chat_chatservice_send"]
  | _ => False
  end.
Proof. vm_compute. reflexivity. Qed.
